(** * VibeHunt API: a shallow embedding of [main.py] and [schemas.py]

    The development follows the layout of the repository:
    - [Bson]: the identifiers and values the document store compares
      ([bson.ObjectId], [str(ObjectId)], [$toString]);
    - [Schemas]: the entity schemas of [schemas.py];
    - [Database]: the three collections [post], [comment], [vote] and the
      collection primitives the handlers call;
    - [Aggregation]: the stages of the listing pipeline;
    - [Main]: the request models, the handlers and the routes of [main.py].

    Time is counted in milliseconds since the epoch, the resolution at which
    the store keeps a [datetime]; [timedelta(days=7)] is [7 * 86400000]. *)

From Stdlib Require Import ZArith NArith List String Ascii Bool Lia.
From Stdlib Require Import Sorting.Sorted Sorting.Permutation.
From Stdlib Require Import DecimalString.
Import ListNotations.

Set Warnings "-register-all".

Local Open Scope string_scope.
Local Open Scope list_scope.
Local Open Scope Z_scope.

(* ================================================================== *)
(** * Identifiers and values of the document store *)
(* ================================================================== *)

Module Bson.

(** [bson.ObjectId]: the wrapped [binary] value (12 bytes for every
    identifier the driver generates). A byte string is a [string]. *)
Record ObjectId := mkObjectId { binary : string }.

Definition oid_eqb (a b : ObjectId) : bool := String.eqb (binary a) (binary b).

(** One lower-case hexadecimal digit, as [binascii.hexlify] prints it. *)
Definition hex_char (n : N) : ascii :=
  ascii_of_N (if (n <? 10)%N then 48 + n else 87 + n)%N.

Fixpoint hexlify (b : string) : string :=
  match b with
  | EmptyString => EmptyString
  | String c rest =>
      let n := N_of_ascii c in
      String (hex_char (n / 16)%N) (String (hex_char (n mod 16)%N) (hexlify rest))
  end.

(** [str(oid)]: 24 lower-case hexadecimal digits for a 12-byte identifier. *)
Definition str (o : ObjectId) : string := hexlify (binary o).

(** Value of a hexadecimal digit, either case; [None] for any other
    character. *)
Definition hex_value (c : ascii) : option N :=
  let n := N_of_ascii c in
  if ((48 <=? n) && (n <=? 57))%N then Some (n - 48)%N
  else if ((97 <=? n) && (n <=? 102))%N then Some (n - 87)%N
  else if ((65 <=? n) && (n <=? 70))%N then Some (n - 55)%N
  else None.

(** ASCII white space: tab, line feed, vertical tab, form feed, carriage
    return, space. *)
Definition isspace (c : ascii) : bool :=
  let n := N_of_ascii c in
  (((9 <=? n) && (n <=? 13)) || (n =? 32))%N.

(** [bytes.fromhex]: two digits per byte, white space skipped between
    bytes; [None] stands for [ValueError]. *)
Fixpoint fromhex (s : string) : option string :=
  match s with
  | EmptyString => Some EmptyString
  | String c rest =>
      if isspace c then fromhex rest
      else
        match hex_value c, rest with
        | Some top, String d rest' =>
            match hex_value d with
            | Some bot =>
                match fromhex rest' with
                | Some b => Some (String (ascii_of_N (16 * top + bot)) b)
                | None => None
                end
            | None => None
            end
        | _, _ => None
        end
  end.

(** [ObjectId(s)] for a [str] argument: the text must have 24 characters
    and be accepted by [bytes.fromhex]; [None] stands for [InvalidId]. *)
Definition ObjectId_of_str (s : string) : option ObjectId :=
  if (String.length s =? 24)%nat
  then match fromhex s with
       | Some b => Some (mkObjectId b)
       | None => None
       end
  else None.

(** The values the join of the listing pipeline reads and compares:
    identifiers, texts and null. Equality in the store is typed: an
    identifier is never equal to a text. *)
Inductive bson :=
| BObjectId (o : ObjectId)
| BString (s : string)
| BNull.

Definition bson_eqb (a b : bson) : bool :=
  match a, b with
  | BObjectId x, BObjectId y => oid_eqb x y
  | BString x, BString y => String.eqb x y
  | BNull, BNull => true
  | _, _ => false
  end.

(** [$toString]: an identifier is rendered as hexadecimal text, a text is
    left as it is, null stays null. *)
Definition toString (v : bson) : bson :=
  match v with
  | BObjectId o => BString (str o)
  | BString s => BString s
  | BNull => BNull
  end.

End Bson.

(* ================================================================== *)
(** * Entity schemas ([schemas.py]) *)
(* ================================================================== *)

Module Schemas.

Module Post.
Record t := mk
  { title : string;
    description : string;
    link : option string;
    tags : list string;
    author_name : option string }.
End Post.

Module Comment.
Record t := mk
  { post_id : string;
    author_name : option string;
    content : string }.
End Comment.

Module Vote.
Record t := mk
  { post_id : string;
    client_id : string }.
End Vote.

End Schemas.

(* ================================================================== *)
(** * The document store *)
(* ================================================================== *)

Module Database.
Import Bson Schemas.

(** A stored document: the fields of its schema, the identifier the store
    keeps under [_id], and the two timestamps. *)
Record Doc (S : Type) := mkDoc
  { _id : ObjectId;
    body : S;
    created_at : Z;
    updated_at : Z }.
Arguments mkDoc {S}.
Arguments _id {S}.
Arguments body {S}.
Arguments created_at {S}.
Arguments updated_at {S}.

(** The database: three collections, each in insertion order. *)
Record Store := mkStore
  { post : list (Doc Post.t);
    comment : list (Doc Comment.t);
    vote : list (Doc Vote.t) }.

(** What a handler can raise. *)
Inductive Exception :=
| HTTPException (status_code : Z) (detail : string)
| RequestValidationError (errors : list (string * string))
| DuplicateKeyError
| OperationFailure (msg : string)
| OverflowError (msg : string).

(** Handlers run against the store and either return a value or raise;
    the store they leave behind is kept in both cases. *)
Definition M (A : Type) : Type := Store -> (Exception + A) * Store.

Definition ret {A} (a : A) : M A := fun st => (inr a, st).

Definition raise {A} (e : Exception) : M A := fun st => (inl e, st).

Definition bind {A B} (m : M A) (k : A -> M B) : M B :=
  fun st =>
    match m st with
    | (inr a, st') => k a st'
    | (inl e, st') => (inl e, st')
    end.

Declare Scope db_scope.
Delimit Scope db_scope with db.
Notation "x <- m ;; k" := (bind m (fun x => k))
  (at level 61, m at next level, right associativity) : db_scope.
Notation "m ;; k" := (bind m (fun _ => k))
  (at level 61, right associativity) : db_scope.

(** [db["name"]]: a handle on one collection of the store. *)
Record Collection (S : Type) := mkCollection
  { docs : Store -> list (Doc S);
    set_docs : list (Doc S) -> Store -> Store }.
Arguments docs {S}.
Arguments set_docs {S}.

Definition db_post : Collection Post.t :=
  {| docs := post;
     set_docs := fun l st => {| post := l; comment := comment st; vote := vote st |} |}.

Definition db_comment : Collection Comment.t :=
  {| docs := comment;
     set_docs := fun l st => {| post := post st; comment := l; vote := vote st |} |}.

Definition db_vote : Collection Vote.t :=
  {| docs := vote;
     set_docs := fun l st => {| post := post st; comment := comment st; vote := l |} |}.

(** Query documents are predicates on stored documents. *)
Definition Query (S : Type) : Type := Doc S -> bool.

(** [{}] *)
Definition q_all {S} : Query S := fun _ => true.

(** [{"_id": oid}] *)
Definition q_id {S} (oid : ObjectId) : Query S := fun d => oid_eqb (_id d) oid.

(** [{"created_at": {"$gte": since}}] *)
Definition q_created_gte {S} (since : Z) : Query S := fun d => since <=? created_at d.

(** [{"post_id": p, "client_id": c}] on the vote collection *)
Definition q_vote (p c : string) : Query Vote.t :=
  fun d => String.eqb (Vote.post_id (body d)) p && String.eqb (Vote.client_id (body d)) c.

(** [{"post_id": p}] on the comment collection *)
Definition q_comment_post (p : string) : Query Comment.t :=
  fun d => String.eqb (Comment.post_id (body d)) p.

(** ** Collection primitives *)

Definition find_one {S} (c : Collection S) (q : Query S) : M (option (Doc S)) :=
  fun st => (inr (List.find q (docs c st)), st).

Definition find {S} (c : Collection S) (q : Query S) : M (list (Doc S)) :=
  fun st => (inr (List.filter q (docs c st)), st).

Definition count_documents {S} (c : Collection S) (q : Query S) : M Z :=
  fun st => (inr (Z.of_nat (List.length (List.filter q (docs c st)))), st).

(** Removes the first document the query selects, if any. *)
Fixpoint remove_first {S} (q : Query S) (l : list (Doc S)) : list (Doc S) :=
  match l with
  | [] => []
  | d :: rest => if q d then rest else d :: remove_first q rest
  end.

Definition delete_one {S} (c : Collection S) (q : Query S) : M unit :=
  fun st => (inr tt, set_docs c (remove_first q (docs c st)) st).

(** The store keeps [_id] unique within a collection: inserting a document
    whose identifier is already present is refused. *)
Definition insert_one {S} (c : Collection S) (d : Doc S) : M ObjectId :=
  fun st =>
    if List.existsb (q_id (_id d)) (docs c st)
    then (inl DuplicateKeyError, st)
    else (inr (_id d), set_docs c (docs c st ++ [d]) st).

(** Modelled from the spec: [create_document] of the [database] module,
    which is not part of the sources. The spec gives the store primitive
    [insert_one(collection, doc) -> id] and has every creation path store the
    record with [created_at = updated_at = now] and return the new
    identifier, rendered as text. The identifier [oid] is the one the driver
    generates for the new document. *)
Definition create_document {S} (c : Collection S) (data : S) (now : Z) (oid : ObjectId)
  : M string :=
  (inserted_id <- insert_one c (mkDoc oid data now now) ;;
   ret (str inserted_id))%db.

(** Modelled from the spec: [get_documents] of the [database] module, which
    is not part of the sources; the spec gives the store primitive
    [find(collection, filter) -> sequence of doc]. *)
Definition get_documents {S} (c : Collection S) (filter_dict : Query S) : M (list (Doc S)) :=
  find c filter_dict.

End Database.

(* ================================================================== *)
(** * The aggregation stages used by the listing *)
(* ================================================================== *)

Module Aggregation.
Import Bson Schemas Database.

(** A document of a joined collection. *)
Inductive ForeignDoc :=
| FPost (d : Doc Post.t)
| FComment (d : Doc Comment.t)
| FVote (d : Doc Vote.t).

(** A document travelling through the pipeline: the post it comes from,
    the arrays attached by [$lookup] (under their [as] names) and the
    numbers attached by [$addFields]. A later binding of a name shadows an
    earlier one. *)
Record AggDoc := mkAggDoc
  { source : Doc Post.t;
    joined : list (string * list ForeignDoc);
    added : list (string * Z) }.

Fixpoint assoc {A} (k : string) (l : list (string * A)) : option A :=
  match l with
  | [] => None
  | (k', v) :: rest => if String.eqb k k' then Some v else assoc k rest
  end.

Definition opt_text (o : option string) : bson :=
  match o with
  | Some s => BString s
  | None => BNull
  end.

(** The identifier and text fields of a document, by name; [None] is a
    field the view does not have. *)
Definition post_fields (d : Doc Post.t) (f : string) : option bson :=
  if String.eqb f "_id" then Some (BObjectId (_id d))
  else if String.eqb f "title" then Some (BString (Post.title (body d)))
  else if String.eqb f "description" then Some (BString (Post.description (body d)))
  else if String.eqb f "link" then Some (opt_text (Post.link (body d)))
  else if String.eqb f "author_name" then Some (opt_text (Post.author_name (body d)))
  else None.

Definition comment_fields (d : Doc Comment.t) (f : string) : option bson :=
  if String.eqb f "_id" then Some (BObjectId (_id d))
  else if String.eqb f "post_id" then Some (BString (Comment.post_id (body d)))
  else if String.eqb f "author_name" then Some (opt_text (Comment.author_name (body d)))
  else if String.eqb f "content" then Some (BString (Comment.content (body d)))
  else None.

Definition vote_fields (d : Doc Vote.t) (f : string) : option bson :=
  if String.eqb f "_id" then Some (BObjectId (_id d))
  else if String.eqb f "post_id" then Some (BString (Vote.post_id (body d)))
  else if String.eqb f "client_id" then Some (BString (Vote.client_id (body d)))
  else None.

Definition foreign_fields (x : ForeignDoc) : string -> option bson :=
  match x with
  | FPost d => post_fields d
  | FComment d => comment_fields d
  | FVote d => vote_fields d
  end.

(** The collection a [$lookup] joins [from]; a name that is not a
    collection of the database joins nothing. *)
Definition foreign_collection (st : Store) (name : string) : list ForeignDoc :=
  if String.eqb name "post" then map FPost (post st)
  else if String.eqb name "comment" then map FComment (comment st)
  else if String.eqb name "vote" then map FVote (vote st)
  else [].

(** Expressions: ["$name"], ["$$name"] and [{"$toString": e}]. *)
Inductive expr :=
| Field (name : string)
| Var (name : string)
| ToString (e : expr).

Fixpoint eval_expr (fields : string -> option bson) (vars : list (string * option bson))
    (e : expr) : option bson :=
  match e with
  | Field n => fields n
  | Var n => match assoc n vars with
             | Some v => v
             | None => None
             end
  | ToString e' =>
      match eval_expr fields vars e' with
      | Some v => Some (toString v)
      | None => Some BNull
      end
  end.

(** [{"$eq": [a, b]}] on two evaluated operands. *)
Definition expr_eq (a b : option bson) : bool :=
  match a, b with
  | Some x, Some y => bson_eqb x y
  | None, None => true
  | _, _ => false
  end.

(** A stage of the pipeline nested in a [$lookup]:
    [{"$match": {"$expr": {"$eq": [a, b]}}}]. *)
Inductive substage :=
| MatchExprEq (a b : expr).

(** The fields of a [$lookup] stage. *)
Record lookup := mkLookup
  { from : string;
    localField : string;
    foreignField : string;
    as_ : string;
    let_ : list (string * expr);
    pipeline : list substage }.

Definition null_if_missing (v : option bson) : bson :=
  match v with
  | Some x => x
  | None => BNull
  end.

Definition substage_holds (vars : list (string * option bson)) (x : ForeignDoc)
    (s : substage) : bool :=
  match s with
  | MatchExprEq a b =>
      expr_eq (eval_expr (foreign_fields x) vars a) (eval_expr (foreign_fields x) vars b)
  end.

(** The documents a [$lookup] attaches to [d]. With [localField] and
    [foreignField] given next to [let] and [pipeline], the store first
    keeps the foreign documents whose [foreignField] equals the
    [localField] of [d] (a missing field counts as null), then runs the
    nested pipeline on them with the [let] variables bound from [d]. *)
Definition lookup_docs (st : Store) (l : lookup) (d : AggDoc) : list ForeignDoc :=
  let vars :=
    map (fun b => (fst b, eval_expr (post_fields (source d)) [] (snd b))) (let_ l) in
  filter
    (fun x =>
       bson_eqb (null_if_missing (post_fields (source d) (localField l)))
                (null_if_missing (foreign_fields x (foreignField l)))
       && forallb (substage_holds vars x) (pipeline l))
    (foreign_collection st (from l)).

(** The driver sends a command to the store with every integer encoded
    in at most 8 bytes; an integer outside [-2^63, 2^63 - 1] makes it raise
    [OverflowError] before anything is sent. *)
Definition int64_min : Z := -9223372036854775808.
Definition int64_max : Z := 9223372036854775807.

Definition fits_int64 (n : Z) : bool := (int64_min <=? n) && (n <=? int64_max).

Definition overflow : Exception :=
  OverflowError "MongoDB can only handle up to 8-byte ints".

(** The stages [list_posts] builds. [AddFields] binds each name to the
    [$size] of the named array. *)
Inductive stage :=
| Match (q : Query Post.t)
| Lookup (l : lookup)
| AddFields (sizes : list (string * string))
| Sort (keys : list (string * Z))
| Skip (n : Z)
| Limit (n : Z).

(** [$size] of each named array of [d], bound under the new names. *)
Fixpoint add_sizes (sizes : list (string * string)) (d : AggDoc)
    (acc : list (string * Z)) : Exception + AggDoc :=
  match sizes with
  | [] => inr (mkAggDoc (source d) (joined d) (acc ++ added d))
  | (name, arr) :: rest =>
      match assoc arr (joined d) with
      | Some l => add_sizes rest d (acc ++ [(name, Z.of_nat (List.length l))])
      | None => inl (OperationFailure "The argument to $size must be an array")
      end
  end.

Fixpoint map_result {A B} (f : A -> Exception + B) (l : list A) : Exception + list B :=
  match l with
  | [] => inr []
  | x :: rest =>
      match f x with
      | inl e => inl e
      | inr y =>
          match map_result f rest with
          | inl e => inl e
          | inr ys => inr (y :: ys)
          end
      end
  end.

(** The value [$sort] reads under a key: a computed count or a timestamp;
    [None] is a missing key, which sorts below every value. *)
Definition sort_value (d : AggDoc) (k : string) : option Z :=
  match assoc k (added d) with
  | Some n => Some n
  | None =>
      if String.eqb k "created_at" then Some (created_at (source d))
      else if String.eqb k "updated_at" then Some (updated_at (source d))
      else None
  end.

Definition compare_value (a b : option Z) : comparison :=
  match a, b with
  | None, None => Eq
  | None, Some _ => Lt
  | Some _, None => Gt
  | Some x, Some y => Z.compare x y
  end.

(** Comparison under a sort document: the keys in order, [-1] for
    descending. *)
Fixpoint compare_keys (keys : list (string * Z)) (a b : AggDoc) : comparison :=
  match keys with
  | [] => Eq
  | (k, dir) :: rest =>
      match compare_value (sort_value a k) (sort_value b k) with
      | Eq => compare_keys rest a b
      | c => if dir =? -1 then CompOpp c else c
      end
  end.

(** [$sort] as a stable insertion sort: documents that compare equal keep
    the order of the collection. *)
Fixpoint insert_sorted (keys : list (string * Z)) (x : AggDoc) (l : list AggDoc)
    : list AggDoc :=
  match l with
  | [] => [x]
  | y :: rest =>
      match compare_keys keys x y with
      | Gt => y :: insert_sorted keys x rest
      | _ => x :: y :: rest
      end
  end.

Definition sort_docs (keys : list (string * Z)) (l : list AggDoc) : list AggDoc :=
  fold_right (insert_sorted keys) [] l.

(** One stage, run on the documents that reach it. The argument of
    [$skip] is an integer of at most 8 bytes that is not negative, the
    argument of [$limit] one that is positive. *)
Definition run_stage (st : Store) (s : stage) (l : list AggDoc) : Exception + list AggDoc :=
  match s with
  | Match q => inr (filter (fun d => q (source d)) l)
  | Lookup lk =>
      inr (map (fun d => mkAggDoc (source d) ((as_ lk, lookup_docs st lk d) :: joined d) (added d)) l)
  | AddFields sizes => map_result (fun d => add_sizes sizes d []) l
  | Sort keys => inr (sort_docs keys l)
  | Skip n =>
      if negb (fits_int64 n) then inl overflow
      else if n <? 0 then inl (OperationFailure "$skip must be non-negative")
      else inr (skipn (Z.to_nat n) l)
  | Limit n =>
      if negb (fits_int64 n) then inl overflow
      else if n <=? 0 then inl (OperationFailure "$limit must be positive")
      else inr (firstn (Z.to_nat n) l)
  end.

Fixpoint run_pipeline (st : Store) (stages : list stage) (l : list AggDoc)
    : Exception + list AggDoc :=
  match stages with
  | [] => inr l
  | s :: rest =>
      match run_stage st s l with
      | inl e => inl e
      | inr l' => run_pipeline st rest l'
      end
  end.

(** The integers of a stage all fit in 8 bytes. *)
Definition stage_encodes (s : stage) : bool :=
  match s with
  | Skip n => fits_int64 n
  | Limit n => fits_int64 n
  | Sort keys => forallb (fun k => fits_int64 (snd k)) keys
  | Match _ | Lookup _ | AddFields _ => true
  end.

(** [db["post"].aggregate(pipeline)]: the pipeline is encoded as a whole
    before it is sent, so a stage whose integer does not fit in 8 bytes
    makes the call raise before any stage runs. *)
Definition aggregate (stages : list stage) : M (list AggDoc) :=
  fun st =>
    if forallb stage_encodes stages
    then (run_pipeline st stages (map (fun d => mkAggDoc d [] []) (post st)), st)
    else (inl overflow, st).

End Aggregation.

(* ================================================================== *)
(** * The API layer ([main.py]) *)
(* ================================================================== *)

Module Main.
Import Bson Schemas Database Aggregation.

(** ** Utilities *)

(** The ISO-8601 text [datetime.isoformat] gives for a timestamp, kept as
    the timestamp it renders. *)
Inductive IsoText := isoformat (ms : Z).

Definition iso_ms (t : IsoText) : Z := match t with isoformat ms => ms end.

(** What [to_str_id] makes of a stored document: [_id] is replaced by
    [id], its text, and both timestamps by their ISO text. *)
Record StrDoc (S : Type) := mkStrDoc
  { id : string;
    fields : S;
    created_at_iso : IsoText;
    updated_at_iso : IsoText }.
Arguments mkStrDoc {S}.
Arguments id {S}.
Arguments fields {S}.
Arguments created_at_iso {S}.
Arguments updated_at_iso {S}.

Definition to_str_id {S} (doc : Doc S) : StrDoc S :=
  {| id := str (_id doc);
     fields := body doc;
     created_at_iso := isoformat (created_at doc);
     updated_at_iso := isoformat (updated_at doc) |}.

(** An item of the listing: [to_str_id] applied to a document that leaves
    the pipeline. Only top-level values are converted, the joined arrays
    and the counts are carried over as they are. *)
Record Item := mkItem
  { item_doc : StrDoc Post.t;
    arrays : list (string * list ForeignDoc);
    numbers : list (string * Z) }.

Definition to_str_id_item (x : AggDoc) : Item :=
  {| item_doc := to_str_id (source x);
     arrays := joined x;
     numbers := added x |}.

Definition votes_count (i : Item) : option Z := assoc "votes_count" (numbers i).
Definition comments_count (i : Item) : option Z := assoc "comments_count" (numbers i).

(** ** Models for requests *)

Module PostCreate.
Record t := mk
  { title : string;
    description : string;
    link : option string;
    tags : list string;
    author_name : option string }.
End PostCreate.

Module CommentCreate.
Record t := mk
  { post_id : string;
    content : string;
    author_name : option string }.
End CommentCreate.

Module VoteToggle.
Record t := mk
  { post_id : string;
    client_id : string }.
End VoteToggle.

(** The schema objects built from a dumped payload, [PostSchema] and its
    two siblings: a schema has the fields of its request model, with the
    same types. *)
Definition PostSchema (p : PostCreate.t) : Post.t :=
  Post.mk (PostCreate.title p) (PostCreate.description p) (PostCreate.link p)
          (PostCreate.tags p) (PostCreate.author_name p).

Definition CommentSchema (p : CommentCreate.t) : Comment.t :=
  Comment.mk (CommentCreate.post_id p) (CommentCreate.author_name p)
             (CommentCreate.content p).

Definition VoteSchema (p : VoteToggle.t) : Vote.t :=
  Vote.mk (VoteToggle.post_id p) (VoteToggle.client_id p).

(** A parsed JSON request body. *)
Inductive json :=
| JNull
| JBool (b : bool)
| JNumber (z : Z)
| JString (s : string)
| JArray (l : list json)
| JObject (o : list (string * json)).

Definition Errors : Type := list (string * string).

(** A field declared [str]: it must be present and a text. *)
Definition required_str (name : string) (o : list (string * json)) : Errors + string :=
  match assoc name o with
  | None => inl [(name, "missing")]
  | Some (JString s) => inr s
  | Some _ => inl [(name, "string_type")]
  end.

(** A field declared [Optional[str] = None]. *)
Definition optional_str (name : string) (o : list (string * json))
    : Errors + option string :=
  match assoc name o with
  | None => inr None
  | Some JNull => inr None
  | Some (JString s) => inr (Some s)
  | Some _ => inl [(name, "string_type")]
  end.

Fixpoint all_strings (l : list json) : option (list string) :=
  match l with
  | [] => Some []
  | JString s :: rest =>
      match all_strings rest with
      | Some ss => Some (s :: ss)
      | None => None
      end
  | _ :: _ => None
  end.

(** A field declared [List[str] = []]. *)
Definition str_list (name : string) (o : list (string * json)) : Errors + list string :=
  match assoc name o with
  | None => inr []
  | Some (JArray l) =>
      match all_strings l with
      | Some ss => inr ss
      | None => inl [(name, "string_type")]
      end
  | Some _ => inl [(name, "list_type")]
  end.

Definition errors_of {A} (r : Errors + A) : Errors :=
  match r with
  | inl e => e
  | inr _ => []
  end.

(** Validation of a request body against [PostCreate]: every field is
    checked, and the failures of all of them are reported. *)
Definition validate_PostCreate (b : json) : Errors + PostCreate.t :=
  match b with
  | JObject o =>
      let title := required_str "title" o in
      let description := required_str "description" o in
      let link := optional_str "link" o in
      let tags := str_list "tags" o in
      let author_name := optional_str "author_name" o in
      match title, description, link, tags, author_name with
      | inr t, inr d, inr l, inr g, inr a => inr (PostCreate.mk t d l g a)
      | _, _, _, _, _ =>
          inl (errors_of title ++ errors_of description ++ errors_of link
               ++ errors_of tags ++ errors_of author_name)
      end
  | _ => inl [("body", "model_attributes_type")]
  end.

Definition validate_CommentCreate (b : json) : Errors + CommentCreate.t :=
  match b with
  | JObject o =>
      let post_id := required_str "post_id" o in
      let content := required_str "content" o in
      let author_name := optional_str "author_name" o in
      match post_id, content, author_name with
      | inr p, inr c, inr a => inr (CommentCreate.mk p c a)
      | _, _, _ => inl (errors_of post_id ++ errors_of content ++ errors_of author_name)
      end
  | _ => inl [("body", "model_attributes_type")]
  end.

Definition validate_VoteToggle (b : json) : Errors + VoteToggle.t :=
  match b with
  | JObject o =>
      let post_id := required_str "post_id" o in
      let client_id := required_str "client_id" o in
      match post_id, client_id with
      | inr p, inr c => inr (VoteToggle.mk p c)
      | _, _ => inl (errors_of post_id ++ errors_of client_id)
      end
  | _ => inl [("body", "model_attributes_type")]
  end.

(** ** Handlers *)

(** The global [db] is either [None] or the database; a handler returns a
    value or raises, and leaves the database behind. *)
Definition Handler (A : Type) : Type := option Store -> (Exception + A) * option Store.

(** [if db is None: raise HTTPException(status_code=500, ...)], then the
    rest of the handler. *)
Definition with_db {A} (rest : M A) : Handler A :=
  fun db =>
    match db with
    | None => (inl (HTTPException 500 "Database not configured"), None)
    | Some st => (fst (rest st), Some (snd (rest st)))
    end.

Definition root : Handler string :=
  fun db => (inr "VibeHunt API running", db).

Inductive Timeframe := week | month | all.
Inductive SortBy := votes | comments | latest.

Definition days (n : Z) : Z := n * 86400000.

(** [filter_q]: [{}] or [{"created_at": {"$gte": since}}]. *)
Definition filter_q (timeframe : Timeframe) (now : Z) : Query Post.t :=
  match timeframe with
  | all => q_all
  | week => q_created_gte (now - days 7)
  | month => q_created_gte (now - days 30)
  end.

(** The two [$lookup] stages, as written in the source. *)
Definition lookup_votes : lookup :=
  {| from := "vote";
     localField := "_id";
     foreignField := "post_id";
     as_ := "votes_docs";
     let_ := [("pid", ToString (Field "_id"))];
     pipeline := [MatchExprEq (Field "post_id") (ToString (Var "pid"))] |}.

Definition lookup_comments : lookup :=
  {| from := "comment";
     localField := "_id";
     foreignField := "post_id";
     as_ := "comments_docs";
     let_ := [("pid", ToString (Field "_id"))];
     pipeline := [MatchExprEq (Field "post_id") (ToString (Var "pid"))] |}.

Definition sort_stage (sort_by : SortBy) : stage :=
  match sort_by with
  | votes => Sort [("votes_count", -1); ("created_at", -1)]
  | comments => Sort [("comments_count", -1); ("created_at", -1)]
  | latest => Sort [("created_at", -1)]
  end.

Definition list_pipeline (page page_size : Z) (timeframe : Timeframe) (sort_by : SortBy)
    (now : Z) : list stage :=
  let pipeline :=
    [ Match (filter_q timeframe now);
      Lookup lookup_votes;
      Lookup lookup_comments;
      AddFields [("votes_count", "votes_docs"); ("comments_count", "comments_docs")] ] in
  let pipeline := pipeline ++ [sort_stage sort_by] in
  pipeline ++ [Skip ((page - 1) * page_size); Limit page_size].

Record ListResponse := mkListResponse
  { items : list Item;
    total : Z;
    page : Z;
    page_size : Z }.

Definition list_posts (page page_size : Z) (timeframe : Timeframe) (sort_by : SortBy)
    (now : Z) : Handler ListResponse :=
  with_db
    (items <- aggregate (list_pipeline page page_size timeframe sort_by now) ;;
     let items := map to_str_id_item items in
     total <- count_documents db_post (filter_q timeframe now) ;;
     ret (mkListResponse items total page page_size))%db.

Definition create_post (payload : PostCreate.t) (now : Z) (oid : ObjectId) : Handler string :=
  with_db
    (let post := PostSchema payload in
     post_id <- create_document db_post post now oid ;;
     ret post_id)%db.

(** The [try] block shared by [add_comment] and [toggle_vote]: the text is
    turned into an identifier and the post looked up; any exception gives
    [None]. *)
Definition find_post (post_id : string) : M (option (Doc Post.t)) :=
  match ObjectId_of_str post_id with
  | Some oid => find_one db_post (q_id oid)
  | None => ret None
  end.

Definition add_comment (payload : CommentCreate.t) (now : Z) (oid : ObjectId)
    : Handler string :=
  with_db
    (found <- find_post (CommentCreate.post_id payload) ;;
     match found with
     | None => raise (HTTPException 404 "Post not found")
     | Some _ =>
         let comment := CommentSchema payload in
         cid <- create_document db_comment comment now oid ;;
         ret cid
     end)%db.

Record VoteResponse := mkVoteResponse
  { status : string;
    vote_id : option string }.

Definition toggle_vote (payload : VoteToggle.t) (now : Z) (oid : ObjectId)
    : Handler VoteResponse :=
  with_db
    (found <- find_post (VoteToggle.post_id payload) ;;
     match found with
     | None => raise (HTTPException 404 "Post not found")
     | Some _ =>
         existing <- find_one db_vote
                       (q_vote (VoteToggle.post_id payload) (VoteToggle.client_id payload)) ;;
         match existing with
         | Some e =>
             delete_one db_vote (q_id (_id e)) ;;
             ret (mkVoteResponse "unvoted" None)
         | None =>
             let vote := VoteSchema payload in
             _id <- create_document db_vote vote now oid ;;
             ret (mkVoteResponse "voted" (Some _id))
         end
     end)%db.

Definition list_comments (post_id : string) : Handler (list (StrDoc Comment.t)) :=
  with_db
    (items <- get_documents db_comment (q_comment_post post_id) ;;
     ret (map to_str_id items))%db.

(** ** Routes *)

(** The query parameters of [GET /api/posts] as the client sent them; an
    omitted parameter is [None]. *)
Record ListQuery := mkListQuery
  { q_page : option Z;
    q_page_size : option Z;
    q_timeframe : option string;
    q_sort_by : option string }.

Definition default {A} (d : A) (o : option A) : A :=
  match o with
  | Some x => x
  | None => d
  end.

Definition parse_timeframe (s : string) : option Timeframe :=
  if String.eqb s "week" then Some week
  else if String.eqb s "month" then Some month
  else if String.eqb s "all" then Some all
  else None.

Definition parse_sort_by (s : string) : option SortBy :=
  if String.eqb s "votes" then Some votes
  else if String.eqb s "comments" then Some comments
  else if String.eqb s "latest" then Some latest
  else None.

(** The declarations [Query(1, ge=1)], [Query(8, ge=1, le=50)],
    [Query("all")] and [Query("votes")] of [list_posts]: defaults for
    omitted parameters, then the bounds and the literal values. *)
Definition validate_list_query (q : ListQuery) : Errors + (Z * Z * Timeframe * SortBy) :=
  let page := default 1 (q_page q) in
  let page_size := default 8 (q_page_size q) in
  let timeframe := parse_timeframe (default "all" (q_timeframe q)) in
  let sort_by := parse_sort_by (default "votes" (q_sort_by q)) in
  let e_page := if 1 <=? page then [] else [("page", "greater_than_equal")] in
  let e_page_size :=
    if page_size <? 1 then [("page_size", "greater_than_equal")]
    else if 50 <? page_size then [("page_size", "less_than_equal")]
    else [] in
  let e_timeframe :=
    match timeframe with Some _ => [] | None => [("timeframe", "literal_error")] end in
  let e_sort_by :=
    match sort_by with Some _ => [] | None => [("sort_by", "literal_error")] end in
  match e_page ++ e_page_size ++ e_timeframe ++ e_sort_by, timeframe, sort_by with
  | [], Some t, Some s => inr (page, page_size, t, s)
  | errors, _, _ => inl errors
  end.

(** The requests the application serves. The diagnostic route [/test]
    reads the names of the collections and the environment, changes
    nothing, and is left out. *)
Inductive Request :=
| GET_root
| GET_posts (q : ListQuery)
| POST_posts (body : json)
| POST_comments (body : json)
| POST_vote_toggle (body : json)
| GET_comments (post_id : string).

Inductive Response :=
| Message (message : string)
| Listing (r : ListResponse)
| Created (new_id : string)
| Toggled (r : VoteResponse)
| CommentList (comment_items : list (StrDoc Comment.t)).

Definition respond {A} (wrap : A -> Response) (h : Handler A) : Handler Response :=
  fun db =>
    match fst (h db) with
    | inr a => (inr (wrap a), snd (h db))
    | inl e => (inl e, snd (h db))
    end.

(** A request that fails validation is answered before its handler runs. *)
Definition invalid {A} (errors : Errors) : Handler A :=
  fun db => (inl (RequestValidationError errors), db).

(** One request served: [now] is the clock at the time of the call and
    [oid] the identifier the driver generates should a document be
    inserted. *)
Definition app (r : Request) (now : Z) (oid : ObjectId) : Handler Response :=
  match r with
  | GET_root => respond Message root
  | GET_posts q =>
      match validate_list_query q with
      | inr (page, page_size, timeframe, sort_by) =>
          respond Listing (list_posts page page_size timeframe sort_by now)
      | inl errors => invalid errors
      end
  | POST_posts body =>
      match validate_PostCreate body with
      | inr payload => respond Created (create_post payload now oid)
      | inl errors => invalid errors
      end
  | POST_comments body =>
      match validate_CommentCreate body with
      | inr payload => respond Created (add_comment payload now oid)
      | inl errors => invalid errors
      end
  | POST_vote_toggle body =>
      match validate_VoteToggle body with
      | inr payload => respond Toggled (toggle_vote payload now oid)
      | inl errors => invalid errors
      end
  | GET_comments post_id => respond CommentList (list_comments post_id)
  end.

(** ** Seeding demo data if empty *)

(** [insert_many], ordered: the documents are inserted one after the other
    and the first one refused stops the batch, the earlier ones staying
    stored ([DuplicateKeyError] stands for the bulk write error that reports
    the duplicate key). An empty batch is refused with the message given. *)
Fixpoint insert_each {S} (c : Collection S) (ds : list (Doc S)) : M (list ObjectId) :=
  match ds with
  | [] => ret []
  | d :: rest =>
      (inserted_id <- insert_one c d ;;
       inserted_ids <- insert_each c rest ;;
       ret (inserted_id :: inserted_ids))%db
  end.

Definition insert_many {S} (c : Collection S) (ds : list (Doc S)) : M (list ObjectId) :=
  match ds with
  | [] => raise (OperationFailure "documents must be a non-empty list")
  | _ :: _ => insert_each c ds
  end.

(** A document as the code builds it, before the driver gives it an
    identifier: the fields, [created_at] and [updated_at]. *)
Definition Pending (S : Type) : Type := (S * Z * Z)%type.

(** The driver gives the documents of a batch the identifiers it
    generates, in order: [gen k] is the [k]-th identifier generated during
    the call. *)
Fixpoint with_ids {T} (gen : nat -> ObjectId) (k : nat) (l : list (Pending T))
    : list (Doc T) :=
  match l with
  | [] => []
  | (data, created, updated) :: rest =>
      mkDoc (gen k) data created updated :: with_ids gen (S k) rest
  end.

(** [f"seed-client-{j}"] *)
Definition seed_client (j : nat) : string :=
  "seed-client-" ++ NilZero.string_of_uint (Nat.to_uint j).

(** The four demo posts; [clock n] is the [n]-th reading of
    [datetime.now(timezone.utc)] during the call. *)
Definition demo_posts (clock : nat -> Z) : list (Pending Post.t) :=
  [ (Post.mk "AI Thumbnail Wizard"
       "Auto-generate YouTube thumbnails that actually get clicks using vibe-based prompts."
       (Some "https://ai-thumb-wizard.dev") ["AI"; "Creator"; "SaaS"] (Some "Nova"),
     clock 0%nat, clock 1%nat);
    (Post.mk "Tweet-to-Course"
       "Turn a viral tweet thread into a paid micro-course with landing page in minutes."
       None ["Education"; "NoCode"] (Some "Ray"),
     clock 2%nat, clock 3%nat);
    (Post.mk "Adless News"
       "A clean daily tech digest with zero ads. Monetize via pro insights."
       (Some "https://adless.news") ["Media"; "Subscription"] (Some "Sage"),
     clock 4%nat, clock 5%nat);
    (Post.mk "Cold DM Crafter"
       "Personalized outreach messages that feel human and get replies."
       None ["Sales"; "AI"] (Some "Ivy"),
     clock 6%nat, clock 7%nat) ].

(** The inner loop, [for j in range(i + 1)]: [count] votes are still to be
    appended, the next one for client [j], at clock reading [tick]. *)
Fixpoint demo_votes_for (clock : nat -> Z) (pid : string) (count j tick : nat)
    : list (Pending Vote.t) :=
  match count with
  | O => []
  | S count' =>
      (Vote.mk pid (seed_client j), clock tick, clock (S tick))
      :: demo_votes_for clock pid count' (S j) (S (S tick))
  end.

(** The outer loop, [for i, pid in enumerate(post_ids)]: the votes and the
    comments it appends, from index [i] and clock reading [tick] on. *)
Fixpoint demo_rows (clock : nat -> Z) (i : nat) (post_ids : list ObjectId) (tick : nat)
    : list (Pending Vote.t) * list (Pending Comment.t) :=
  match post_ids with
  | [] => ([], [])
  | pid :: rest =>
      let demo_votes := demo_votes_for clock (str pid) (S i) 0 tick in
      let tick := (tick + 2 * S i)%nat in
      let demo_comment :=
        (Comment.mk (str pid) (Some "Guest") "Love this!", clock tick, clock (S tick)) in
      let later := demo_rows clock (S i) rest (S (S tick)) in
      (demo_votes ++ fst later, demo_comment :: snd later)
  end.

(** The part of [seed_demo] after its two guards: the posts are inserted,
    then the votes and the comments built from the inserted identifiers. *)
Definition seed_documents (clock : nat -> Z) (gen : nat -> ObjectId) : M unit :=
  (let demo_posts := demo_posts clock in
   post_ids <- insert_many db_post (with_ids gen 0 demo_posts) ;;
   let rows := demo_rows clock 0 post_ids (2 * List.length demo_posts) in
   let demo_votes := fst rows in
   let demo_comments := snd rows in
   let first_vote := List.length demo_posts in
   let first_comment := (first_vote + List.length demo_votes)%nat in
   match demo_votes with
   | [] => ret tt
   | _ :: _ => insert_many db_vote (with_ids gen first_vote demo_votes) ;; ret tt
   end ;;
   match demo_comments with
   | [] => ret tt
   | _ :: _ =>
       insert_many db_comment (with_ids gen first_comment demo_comments) ;;
       ret tt
   end)%db.

(** [seed_demo], run once when the module is loaded. It returns without
    a word when there is no database or when a post is stored. *)
Definition seed_demo (clock : nat -> Z) (gen : nat -> ObjectId) : Handler unit :=
  fun db =>
    match db with
    | None => (inr tt, None)
    | Some st =>
        let rest : M unit :=
          (count <- count_documents db_post q_all ;;
           if 0 <? count then ret tt else seed_documents clock gen)%db in
        (fst (rest st), Some (snd (rest st)))
    end.

End Main.

(* ================================================================== *)
(** * Notions used to state the properties *)
(* ================================================================== *)

Import Bson Schemas Database Aggregation Main.

(** The documents [aggregate] starts from. *)
Definition pipeline_input (st : Store) : list AggDoc :=
  map (fun d => mkAggDoc d [] []) (post st).

(** The pipeline of [list_posts] up to and including its [$sort] stage,
    that is, without [$skip] and [$limit]. *)
Definition unpaged_pipeline (timeframe : Timeframe) (sort_by : SortBy) (now : Z) : list stage :=
  [ Match (filter_q timeframe now);
    Lookup lookup_votes;
    Lookup lookup_comments;
    AddFields [("votes_count", "votes_docs"); ("comments_count", "comments_docs")];
    sort_stage sort_by ].

(** The full sorted and filtered listing: what the unpaged pipeline
    returns, rendered by [to_str_id]. *)
Definition full_listing (st : Store) (timeframe : Timeframe) (sort_by : SortBy) (now : Z)
    : list Item :=
  match run_pipeline st (unpaged_pipeline timeframe sort_by now) (pipeline_input st) with
  | inr l => map to_str_id_item l
  | inl _ => []
  end.

(** The [$skip] and [$limit] of a page both fit in 8 bytes. *)
Definition page_encodes (page page_size : Z) : bool :=
  fits_int64 ((page - 1) * page_size) && fits_int64 page_size.

(** The number of items the [$skip] of a listing query passes over, an
    omitted parameter standing for its default. *)
Definition query_skip (q : ListQuery) : Z :=
  (default 1 (q_page q) - 1) * default 8 (q_page_size q).

(** The elements of [l] at the positions [a <= i < b]. *)
Definition slice {A} (a b : Z) (l : list A) : list A :=
  firstn (Z.to_nat (b - a)) (skipn (Z.to_nat a) l).

(** The response for a page: the slice of the full listing and the number
    of posts the filter selects. *)
Definition page_response (st : Store) (page page_size : Z) (timeframe : Timeframe)
    (sort_by : SortBy) (now : Z) : ListResponse :=
  {| items := slice ((page - 1) * page_size) (page * page_size)
                (full_listing st timeframe sort_by now);
     total := Z.of_nat (List.length (filter (filter_q timeframe now) (post st)));
     page := page;
     page_size := page_size |}.

(** The number of Vote records whose [post_id] is the text [id_text], and
    the same for Comment records. *)
Definition votes_with_post_id (st : Store) (id_text : string) : Z :=
  Z.of_nat (List.length
    (filter (fun v => String.eqb (Vote.post_id (body v)) id_text) (vote st))).

Definition comments_with_post_id (st : Store) (id_text : string) : Z :=
  Z.of_nat (List.length
    (filter (fun c => String.eqb (Comment.post_id (body c)) id_text) (comment st))).

(** The window of a timeframe, in milliseconds. *)
Definition in_window (timeframe : Timeframe) (now : Z) (d : Doc Post.t) : bool :=
  match timeframe with
  | week => now - 7 * 24 * 60 * 60 * 1000 <=? created_at d
  | month => now - 30 * 24 * 60 * 60 * 1000 <=? created_at d
  | all => true
  end.

(** The timestamp an item renders under [created_at]. *)
Definition created_ms (i : Item) : Z := iso_ms (created_at_iso (item_doc i)).

(** [a] may stand before [b] under the selected sort. *)
Definition item_before (sort_by : SortBy) (a b : Item) : Prop :=
  match sort_by with
  | votes =>
      exists x y, votes_count a = Some x /\ votes_count b = Some y /\
                  (x > y \/ (x = y /\ created_ms a >= created_ms b))
  | comments =>
      exists x y, comments_count a = Some x /\ comments_count b = Some y /\
                  (x > y \/ (x = y /\ created_ms a >= created_ms b))
  | latest => created_ms a >= created_ms b
  end.

(** The text [post_id] resolves to an existing Post. *)
Definition post_exists (st : Store) (post_id : string) : bool :=
  match ObjectId_of_str post_id with
  | Some oid => existsb (fun d => oid_eqb (_id d) oid) (post st)
  | None => false
  end.

(** The live votes of a pair [(post_id, client_id)]. *)
Definition live_votes (st : Store) (post_id client_id : string) : nat :=
  List.length (filter (q_vote post_id client_id) (vote st)).

(** At most one live vote per pair. *)
Definition votes_unique (db : option Store) : Prop :=
  match db with
  | Some st => forall post_id client_id, (live_votes st post_id client_id <= 1)%nat
  | None => True
  end.

(** Every comment refers to an existing Post. *)
Definition comments_refer (st : Store) : Prop :=
  forall c, In c (comment st) -> post_exists st (Comment.post_id (body c)) = true.

(** A field of a request body that is present and a text. *)
Definition field_is_text (name : string) (b : json) : bool :=
  match b with
  | JObject o =>
      match assoc name o with
      | Some (JString _) => true
      | _ => false
      end
  | _ => false
  end.

(** A field of a request body that is present and the empty text. *)
Definition field_is_empty_text (name : string) (b : json) : bool :=
  match b with
  | JObject o =>
      match assoc name o with
      | Some (JString s) => String.eqb s ""
      | _ => false
      end
  | _ => false
  end.

(** The document the first four stages of the listing make of a post. *)
Definition enriched (st : Store) (d : Doc Post.t) : AggDoc :=
  let v := lookup_docs st lookup_votes (mkAggDoc d [] []) in
  let c := lookup_docs st lookup_comments (mkAggDoc d [("votes_docs", v)] []) in
  mkAggDoc d [("comments_docs", c); ("votes_docs", v)]
           [("votes_count", Z.of_nat (List.length v));
            ("comments_count", Z.of_nat (List.length c))].

(** The sort document selected by [sort_by]. *)
Definition sort_keys (sort_by : SortBy) : list (string * Z) :=
  match sort_by with
  | votes => [("votes_count", -1); ("created_at", -1)]
  | comments => [("comments_count", -1); ("created_at", -1)]
  | latest => [("created_at", -1)]
  end.

(** [a] does not sort after [b] under [keys]. *)
Definition sorts_before (keys : list (string * Z)) (a b : AggDoc) : Prop :=
  compare_keys keys a b <> Gt.

(** Order on sort values: a missing key is below every value. *)
Definition value_lt (x y : option Z) : Prop :=
  match x, y with
  | None, Some _ => True
  | Some a, Some b => a < b
  | _, None => False
  end.

(** A document that carries the two counts of the listing, and nothing
    else, among its computed fields. *)
Definition has_counts (x : AggDoc) : Prop :=
  exists n m, added x = [("votes_count", n); ("comments_count", m)].

(** A store with one post and one vote cast on it: the vote keeps the
    identifier of the post as text, as [toggle_vote] stores it. *)
Definition sample_post : Doc Post.t :=
  mkDoc (mkObjectId "000000000001") (Post.mk "X" "Y" None [] None) 1000 1000.

Definition sample_vote : Doc Vote.t :=
  mkDoc (mkObjectId "000000000002") (Vote.mk (str (_id sample_post)) "c1") 2000 2000.

Definition sample_store : Store :=
  {| post := [sample_post]; comment := []; vote := [sample_vote] |}.

(** The changes a served request can make to the store: none, a post
    appended, a comment appended to an existing post, a vote appended for
    a pair of an existing post that had none, or the first vote selected
    by a query removed. *)
Inductive store_step (st : Store) : Store -> Prop :=
| step_same : store_step st st
| step_post p :
    store_step st {| post := post st ++ [p]; comment := comment st; vote := vote st |}
| step_comment c :
    post_exists st (Comment.post_id (body c)) = true ->
    store_step st {| post := post st; comment := comment st ++ [c]; vote := vote st |}
| step_vote_on v :
    post_exists st (Vote.post_id (body v)) = true ->
    List.find (q_vote (Vote.post_id (body v)) (Vote.client_id (body v))) (vote st) = None ->
    existsb (q_id (_id v)) (vote st) = false ->
    store_step st {| post := post st; comment := comment st; vote := vote st ++ [v] |}
| step_vote_off q :
    store_step st {| post := post st; comment := comment st;
                     vote := remove_first q (vote st) |}.

(** The store before any request, and a post-creation body whose title
    and description are the empty text. *)
Definition empty_store : Store := {| post := []; comment := []; vote := [] |}.

Definition empty_texts_body : json :=
  JObject [("title", JString ""); ("description", JString "")].

(** Following the spec's words, "correlated sub-lookup by foreign key
    rendered as text": what a [$lookup] attaches when only its [let] and
    its nested [pipeline] select the foreign documents. To be compared with
    [lookup_docs], which follows the stage as the source writes it. *)
Definition lookup_docs_by_text (st : Store) (l : lookup) (d : AggDoc) : list ForeignDoc :=
  let vars :=
    map (fun b => (fst b, eval_expr (post_fields (source d)) [] (snd b))) (let_ l) in
  filter (fun x => forallb (substage_holds vars x) (pipeline l))
         (foreign_collection st (from l)).

(** A listing query that passes the declared bounds: [page >= 1],
    [1 <= page_size <= 50], and the literal values of [timeframe] and
    [sort_by], an omitted parameter standing for its default. *)
Definition valid_list_query (q : ListQuery) : bool :=
  (1 <=? default 1 (q_page q))
  && (1 <=? default 8 (q_page_size q)) && (default 8 (q_page_size q) <=? 50)
  && existsb (String.eqb (default "all" (q_timeframe q))) ["week"; "month"; "all"]
  && existsb (String.eqb (default "votes" (q_sort_by q))) ["votes"; "comments"; "latest"].

(** The items [list_posts] returns for a page, none if the call raises. *)
Definition page_items (st : Store) (page_size : Z) (timeframe : Timeframe)
    (sort_by : SortBy) (now : Z) (page : Z) : list Item :=
  match fst (list_posts page page_size timeframe sort_by now (Some st)) with
  | inr r => items r
  | inl _ => []
  end.

(** The pages [1, ..., n]. *)
Definition pages (n : nat) : list Z := map Z.of_nat (seq 1 n).

(** No two documents of a collection share their [_id]. *)
Definition ids_unique (st : Store) : Prop :=
  NoDup (map _id (post st)) /\ NoDup (map _id (comment st)) /\ NoDup (map _id (vote st)).

(** Every vote refers to an existing Post. *)
Definition votes_refer (st : Store) : Prop :=
  forall v, In v (vote st) -> post_exists st (Vote.post_id (body v)) = true.

(** The error of a handler reached without a database. *)
Definition not_configured : Exception := HTTPException 500 "Database not configured".

(** The upper-case spelling of a text, letter by letter ([a]-[z] only). *)
Definition to_upper_ascii (c : ascii) : ascii :=
  let n := N_of_ascii c in
  if ((97 <=? n) && (n <=? 122))%N then ascii_of_N (n - 32) else c.

Fixpoint to_upper (s : string) : string :=
  match s with
  | EmptyString => EmptyString
  | String c rest => String (to_upper_ascii c) (to_upper rest)
  end.

(** The text a request body holds under a name, if it holds one. *)
Definition field_text (name : string) (b : json) : option string :=
  match b with
  | JObject o =>
      match assoc name o with
      | Some (JString s) => Some s
      | _ => None
      end
  | _ => None
  end.

(** A field declared [Optional[str]] that is absent, null or a text. *)
Definition field_is_optional_text (name : string) (b : json) : bool :=
  match b with
  | JObject o =>
      match assoc name o with
      | None | Some JNull | Some (JString _) => true
      | _ => false
      end
  | _ => false
  end.

(** A computation that leaves at least one post stored whenever it starts
    with at least one. *)
Definition keeps_posts {A} (m : M A) : Prop :=
  forall st, post st <> [] -> post (snd (m st)) <> [].

(** A computation that leaves at least one post stored, however it
    starts. *)
Definition makes_posts {A} (m : M A) : Prop :=
  forall st, post (snd (m st)) <> [].

(** The pair a vote is kept under. *)
Definition vote_key (v : Doc Vote.t) : string * string :=
  (Vote.post_id (body v), Vote.client_id (body v)).

(** The store [seed_demo] leaves when it starts from the empty one and
    every insertion is accepted: the demo posts, votes and comments under
    the identifiers generated, in order. *)
Definition seeded_store (clock : nat -> Z) (gen : nat -> ObjectId) : Store :=
  let rows := demo_rows clock 0 (map gen (seq 0 4)) 8 in
  {| post := with_ids gen 0 (demo_posts clock);
     comment := with_ids gen 14 (snd rows);
     vote := with_ids gen 4 (fst rows) |}.

(** A clock and a generator of 12-byte identifiers to run the seeding on:
    the [k]-th identifier starts with the [k]-th capital letter. *)
Definition sample_clock (n : nat) : Z := 1000 + Z.of_nat n.

Definition sample_gen (k : nat) : ObjectId :=
  mkObjectId (String (ascii_of_nat (65 + k)) "00000000000").

(** The identifier an item shows. *)
Definition item_id (i : Item) : string := id (item_doc i).

(** Every stored post has a 12-byte identifier, as the driver generates
    them. *)
Definition post_ids_well_formed (st : Store) : Prop :=
  forall p, In p (post st) -> String.length (binary (_id p)) = 12%nat.

(** A text holds a character that is neither a hexadecimal digit nor
    white space. *)
Fixpoint has_bad_char (s : string) : bool :=
  match s with
  | EmptyString => false
  | String c rest =>
      (negb (isspace c) && match hex_value c with None => true | Some _ => false end)
      || has_bad_char rest
  end.

(** The list of texts a request body holds under a name declared
    [List[str] = []]: the empty list when the name is absent, nothing when
    it holds anything but an array of texts. *)
Definition field_texts (name : string) (b : json) : option (list string) :=
  match b with
  | JObject o =>
      match assoc name o with
      | None => Some []
      | Some (JArray l) => all_strings l
      | Some _ => None
      end
  | _ => None
  end.

(** A store with three posts kept in the order of their insertion, which
    is not the order of their [created_at] (1000, 3000, 2000), and one vote
    cast on the first. *)
Definition first_post : Doc Post.t :=
  mkDoc (mkObjectId "00000000000a") (Post.mk "A" "first" None [] None) 1000 1000.

Definition second_post : Doc Post.t :=
  mkDoc (mkObjectId "00000000000b") (Post.mk "B" "second" None ["tag"] None) 3000 3000.

Definition third_post : Doc Post.t :=
  mkDoc (mkObjectId "00000000000c") (Post.mk "C" "third" None [] (Some "Ray")) 2000 2000.

Definition three_posts : Store :=
  {| post := [first_post; second_post; third_post];
     comment := [];
     vote := [mkDoc (mkObjectId "00000000000d")
                    (Vote.mk (str (_id first_post)) "c1") 4000 4000] |}.

(** The first page whose [$skip], at one item a page, no longer fits in
    8 bytes: [2^63 + 1]. *)
Definition huge_page : Z := 9223372036854775809.

(** The states the application can reach from [db] by serving requests. *)
Inductive reachable (db : option Store) : option Store -> Prop :=
| reach_here : reachable db db
| reach_step db' r now oid :
    reachable db db' -> reachable db (snd (app r now oid db')).

(* ================================================================== *)
(** * Identifiers and their text *)
(* ================================================================== *)

Lemma hex_digits_of_byte c :
  isspace (hex_char (N_of_ascii c / 16)) = false /\
  hex_value (hex_char (N_of_ascii c / 16)) = Some (N_of_ascii c / 16)%N /\
  hex_value (hex_char (N_of_ascii c mod 16)) = Some (N_of_ascii c mod 16)%N /\
  ascii_of_N (16 * (N_of_ascii c / 16) + N_of_ascii c mod 16) = c.
Proof.
  destruct c as [[] [] [] [] [] [] [] []]; repeat split; reflexivity.
Qed.

Lemma fromhex_hexlify b : fromhex (hexlify b) = Some b.
Proof.
  induction b as [| c b IH]; [reflexivity |].
  destruct (hex_digits_of_byte c) as [Hsp [Hhi [Hlo Hc]]].
  cbn [hexlify fromhex]. rewrite Hsp, Hhi, Hlo, IH, Hc. reflexivity.
Qed.

Lemma hexlify_length b : String.length (hexlify b) = (2 * String.length b)%nat.
Proof.
  induction b as [| c b IH]; [reflexivity |].
  cbn [hexlify String.length]. rewrite IH. lia.
Qed.

(** The text of a 12-byte identifier is read back as that identifier. *)
Lemma ObjectId_of_str_str o :
  String.length (binary o) = 12%nat -> ObjectId_of_str (str o) = Some o.
Proof.
  intros Hlen. unfold ObjectId_of_str, str.
  rewrite hexlify_length, Hlen, fromhex_hexlify.
  destruct o; reflexivity.
Qed.

(** A post whose identifier has 12 bytes is found under the text of its
    identifier. *)
Lemma stored_post_exists st p :
  In p (post st) -> String.length (binary (_id p)) = 12%nat ->
  post_exists st (str (_id p)) = true.
Proof.
  intros Hin Hlen. unfold post_exists. rewrite ObjectId_of_str_str by exact Hlen.
  apply existsb_exists. exists p. split; [exact Hin |].
  unfold oid_eqb. apply String.eqb_refl.
Qed.

(* ================================================================== *)
(** * Properties of the listing pipeline *)
(* ================================================================== *)

Lemma sort_stage_keys sort_by : sort_stage sort_by = Sort (sort_keys sort_by).
Proof. destruct sort_by; reflexivity. Qed.

Lemma map_result_map {A B C} (f : B -> Exception + C) (g : A -> B) (h : A -> C) (l : list A) :
  (forall x, f (g x) = inr (h x)) ->
  map_result f (map g l) = inr (map h l).
Proof.
  intros Hfg. induction l as [| x l IH]; simpl.
  - reflexivity.
  - rewrite Hfg, IH. reflexivity.
Qed.

Lemma run_unpaged st timeframe sort_by now :
  run_pipeline st (unpaged_pipeline timeframe sort_by now) (pipeline_input st)
  = inr (sort_docs (sort_keys sort_by)
           (map (enriched st) (filter (filter_q timeframe now) (post st)))).
Proof.
  unfold unpaged_pipeline, pipeline_input.
  rewrite sort_stage_keys.
  cbn [run_pipeline run_stage].
  rewrite filter_map_swap.
  cbn [source].
  rewrite !map_map.
  rewrite (map_result_map _ _ (enriched st)).
  - reflexivity.
  - intro d. reflexivity.
Qed.

Lemma run_pipeline_app st s1 s2 l :
  run_pipeline st (s1 ++ s2) l
  = match run_pipeline st s1 l with
    | inr l' => run_pipeline st s2 l'
    | inl e => inl e
    end.
Proof.
  revert l. induction s1 as [| s s1 IH]; intro l; simpl.
  - reflexivity.
  - destruct (run_stage st s l); [reflexivity | apply IH].
Qed.

Lemma full_listing_eq st timeframe sort_by now :
  full_listing st timeframe sort_by now
  = map to_str_id_item
      (sort_docs (sort_keys sort_by)
         (map (enriched st) (filter (filter_q timeframe now) (post st)))).
Proof. unfold full_listing. rewrite run_unpaged. reflexivity. Qed.

(** ** Integers of 8 bytes *)

Lemma fits_int64_spec n : fits_int64 n = true <-> int64_min <= n <= int64_max.
Proof. unfold fits_int64. rewrite andb_true_iff, !Z.leb_le. reflexivity. Qed.

Lemma fits_int64_small n : 0 <= n <= 50 -> n <= int64_max.
Proof. unfold int64_max. lia. Qed.

(** Linear arithmetic with the two bounds written out. *)
Ltac int64_lia := unfold int64_max, int64_min in *; lia.

Lemma page_encodes_spec page page_size :
  1 <= page -> 1 <= page_size ->
  page_encodes page page_size = true
  <-> page_size <= int64_max /\ (page - 1) * page_size <= int64_max.
Proof.
  intros Hpage Hsize. unfold page_encodes.
  rewrite andb_true_iff, !fits_int64_spec. unfold int64_min. split.
  - intros [[_ Hskip] [_ Hlimit]]. split; assumption.
  - intros [Hlimit Hskip]. repeat split; try assumption; nia.
Qed.

Lemma page_encodes_fits page page_size :
  1 <= page -> 1 <= page_size -> page_size <= int64_max ->
  (page - 1) * page_size <= int64_max ->
  page_encodes page page_size = true.
Proof. intros. apply page_encodes_spec; auto. Qed.

Lemma page_encodes_beyond page page_size :
  1 <= page -> 1 <= page_size ->
  int64_max < (page - 1) * page_size ->
  page_encodes page page_size = false.
Proof.
  intros Hpage Hsize Hskip.
  destruct (page_encodes page page_size) eqn:H; [| reflexivity].
  apply page_encodes_spec in H; lia.
Qed.

Lemma unpaged_pipeline_encodes timeframe sort_by now :
  forallb stage_encodes (unpaged_pipeline timeframe sort_by now) = true.
Proof. destruct sort_by; reflexivity. Qed.

Lemma list_pipeline_encodes page page_size timeframe sort_by now :
  forallb stage_encodes (list_pipeline page page_size timeframe sort_by now)
  = page_encodes page page_size.
Proof.
  change (list_pipeline page page_size timeframe sort_by now)
    with (unpaged_pipeline timeframe sort_by now
            ++ [Skip ((page - 1) * page_size); Limit page_size]).
  rewrite forallb_app, unpaged_pipeline_encodes.
  cbn [forallb stage_encodes andb]. unfold page_encodes.
  rewrite andb_true_r. reflexivity.
Qed.

Lemma run_paged st page page_size timeframe sort_by now :
  1 <= page -> 1 <= page_size -> page_encodes page page_size = true ->
  run_pipeline st (list_pipeline page page_size timeframe sort_by now) (pipeline_input st)
  = inr (slice ((page - 1) * page_size) (page * page_size)
           (sort_docs (sort_keys sort_by)
              (map (enriched st) (filter (filter_q timeframe now) (post st))))).
Proof.
  intros Hpage Hsize Henc.
  change (list_pipeline page page_size timeframe sort_by now)
    with (unpaged_pipeline timeframe sort_by now
            ++ [Skip ((page - 1) * page_size); Limit page_size]).
  rewrite run_pipeline_app, run_unpaged.
  cbn [run_pipeline run_stage].
  unfold page_encodes in Henc. apply andb_prop in Henc. destruct Henc as [Hs Hl].
  rewrite Hs, Hl. cbn [negb].
  destruct (Z.ltb_spec ((page - 1) * page_size) 0) as [Hneg | _]; [nia |].
  destruct (Z.leb_spec page_size 0) as [Hle | _]; [lia |].
  unfold slice.
  replace (page * page_size - (page - 1) * page_size) with page_size by lia.
  reflexivity.
Qed.

(** The response of [list_posts] for a page of a store. *)
Lemma list_posts_encoded st page page_size timeframe sort_by now :
  1 <= page -> 1 <= page_size -> page_encodes page page_size = true ->
  list_posts page page_size timeframe sort_by now (Some st)
  = (inr (page_response st page page_size timeframe sort_by now), Some st).
Proof.
  intros Hpage Hsize Henc.
  unfold list_posts, with_db, bind, aggregate, count_documents, ret, page_response.
  rewrite list_pipeline_encodes, Henc.
  fold (pipeline_input st).
  rewrite run_paged by assumption.
  cbn [fst snd docs db_post].
  rewrite full_listing_eq.
  unfold slice. rewrite skipn_map, firstn_map.
  reflexivity.
Qed.

(** What [list_posts] returns on a configured database, the integers of
    the page fitting in 8 bytes. *)
Lemma list_posts_eval st page page_size timeframe sort_by now :
  1 <= page -> 1 <= page_size -> page_size <= int64_max ->
  (page - 1) * page_size <= int64_max ->
  list_posts page page_size timeframe sort_by now (Some st)
  = (inr {| items := slice ((page - 1) * page_size) (page * page_size)
                       (full_listing st timeframe sort_by now);
            total := Z.of_nat (List.length (filter (filter_q timeframe now) (post st)));
            page := page;
            page_size := page_size |},
     Some st).
Proof.
  intros Hpage Hsize Hlimit Hskip.
  apply list_posts_encoded; auto using page_encodes_fits.
Qed.

(** An integer of the page that does not fit in 8 bytes: the call raises
    when the pipeline is encoded, before the store is asked anything. *)
Lemma list_posts_overflow st page page_size timeframe sort_by now :
  page_encodes page page_size = false ->
  list_posts page page_size timeframe sort_by now (Some st) = (inl overflow, Some st).
Proof.
  intros Henc.
  unfold list_posts, with_db, bind, aggregate.
  rewrite list_pipeline_encodes, Henc. reflexivity.
Qed.

(** Every outcome of [list_posts] on a configured database, for arguments
    within the declared lower bounds. *)
Lemma list_posts_cases st page page_size timeframe sort_by now :
  1 <= page -> 1 <= page_size ->
  (page_encodes page page_size = true /\
   list_posts page page_size timeframe sort_by now (Some st)
   = (inr (page_response st page page_size timeframe sort_by now), Some st))
  \/
  (page_encodes page page_size = false /\
   list_posts page page_size timeframe sort_by now (Some st) = (inl overflow, Some st)).
Proof.
  intros Hpage Hsize. destruct (page_encodes page page_size) eqn:Henc.
  - left. split; [reflexivity | apply list_posts_encoded; assumption].
  - right. split; [reflexivity | apply list_posts_overflow, Henc].
Qed.

(** A response of [list_posts] is the response of the page. *)
Lemma list_posts_response st page page_size timeframe sort_by now r :
  1 <= page -> 1 <= page_size ->
  fst (list_posts page page_size timeframe sort_by now (Some st)) = inr r ->
  r = page_response st page page_size timeframe sort_by now /\
  (page - 1) * page_size <= int64_max.
Proof.
  intros Hpage Hsize Hr.
  destruct (list_posts_cases st page page_size timeframe sort_by now Hpage Hsize)
    as [[Henc Heq] | [_ Heq]]; rewrite Heq in Hr; cbn [fst] in Hr.
  - injection Hr as <-. split; [reflexivity |].
    apply page_encodes_spec in Henc; [apply Henc | assumption | assumption].
  - discriminate.
Qed.

(** ** The two joins attach nothing *)

(** An identifier is compared with the text kept under [post_id]: no
    foreign document passes the equality of [localField] and
    [foreignField]. *)
Lemma lookup_votes_nil st d : lookup_docs st lookup_votes d = [].
Proof.
  unfold lookup_docs. cbn.
  induction (vote st) as [| v l IH]; [reflexivity | exact IH].
Qed.

Lemma lookup_comments_nil st d : lookup_docs st lookup_comments d = [].
Proof.
  unfold lookup_docs. cbn.
  induction (comment st) as [| c l IH]; [reflexivity | exact IH].
Qed.

Lemma enriched_eq st d :
  enriched st d
  = mkAggDoc d [("comments_docs", []); ("votes_docs", [])]
             [("votes_count", 0); ("comments_count", 0)].
Proof.
  unfold enriched. rewrite lookup_votes_nil, lookup_comments_nil. reflexivity.
Qed.

(** The nested pipeline alone selects the records whose [post_id] is the
    text of the identifier of the post: by itself it counts what the
    listing is meant to count. *)
Lemma lookup_by_text_counts_votes st d :
  Z.of_nat (List.length (lookup_docs_by_text st lookup_votes d))
  = votes_with_post_id st (str (_id (source d))).
Proof.
  unfold lookup_docs_by_text, votes_with_post_id. cbn.
  rewrite filter_map_swap, length_map.
  f_equal. f_equal. apply filter_ext. intros v.
  cbn. rewrite andb_true_r. reflexivity.
Qed.

Lemma lookup_by_text_counts_comments st d :
  Z.of_nat (List.length (lookup_docs_by_text st lookup_comments d))
  = comments_with_post_id st (str (_id (source d))).
Proof.
  unfold lookup_docs_by_text, comments_with_post_id. cbn.
  rewrite filter_map_swap, length_map.
  f_equal. f_equal. apply filter_ext. intros c.
  cbn. rewrite andb_true_r. reflexivity.
Qed.

(** ** Sorting *)

Lemma compare_value_spec x y :
  CompareSpec (x = y) (value_lt x y) (value_lt y x) (compare_value x y).
Proof.
  destruct x as [a |], y as [b |]; simpl; try (constructor; simpl; auto; fail).
  destruct (Z.compare_spec a b); constructor; simpl; congruence || lia.
Qed.

Lemma value_lt_irrefl x : ~ value_lt x x.
Proof. destruct x; simpl; lia. Qed.

Lemma value_lt_trans x y z : value_lt x y -> value_lt y z -> value_lt x z.
Proof. destruct x, y, z; simpl; lia || tauto. Qed.

Lemma compare_value_antisym x y : compare_value y x = CompOpp (compare_value x y).
Proof.
  destruct x as [a |], y as [b |]; simpl; try reflexivity.
  apply Z.compare_antisym.
Qed.

Lemma compare_keys_antisym keys a b :
  compare_keys keys b a = CompOpp (compare_keys keys a b).
Proof.
  induction keys as [| [k dir] keys IH]; simpl.
  - reflexivity.
  - rewrite (compare_value_antisym (sort_value a k) (sort_value b k)).
    destruct (compare_value (sort_value a k) (sort_value b k)); simpl;
      [exact IH | |]; destruct (dir =? -1); reflexivity.
Qed.

Lemma sorts_before_total keys a b :
  compare_keys keys a b = Gt -> sorts_before keys b a.
Proof.
  intros H. unfold sorts_before. rewrite compare_keys_antisym, H. discriminate.
Qed.

Lemma sorts_before_trans keys a b c :
  sorts_before keys a b -> sorts_before keys b c -> sorts_before keys a c.
Proof.
  unfold sorts_before.
  induction keys as [| [k dir] keys IH]; simpl.
  - intros _ _. discriminate.
  - destruct (compare_value_spec (sort_value a k) (sort_value b k)) as [Hab | Hab | Hab];
    destruct (compare_value_spec (sort_value b k) (sort_value c k)) as [Hbc | Hbc | Hbc];
    destruct (compare_value_spec (sort_value a k) (sort_value c k)) as [Hac | Hac | Hac];
    destruct (dir =? -1); simpl; intros H1 H2;
    try congruence; try (apply IH; assumption);
    exfalso; clear IH H1 H2;
    destruct (sort_value a k), (sort_value b k), (sort_value c k);
    simpl in *; try tauto; try discriminate;
    repeat match goal with
           | H : Some _ = Some _ |- _ => injection H as H
           end;
    lia.
Qed.

Lemma insert_sorted_In keys x y l :
  In y (insert_sorted keys x l) <-> y = x \/ In y l.
Proof.
  induction l as [| z l IH]; simpl.
  - intuition.
  - destruct (compare_keys keys x z); simpl; rewrite ?IH; intuition.
Qed.

Lemma sort_docs_In keys y l : In y (sort_docs keys l) <-> In y l.
Proof.
  induction l as [| x l IH]; simpl.
  - tauto.
  - rewrite insert_sorted_In, IH. intuition.
Qed.

Lemma insert_sorted_perm keys x l : Permutation (x :: l) (insert_sorted keys x l).
Proof.
  induction l as [| y l IH]; simpl.
  - apply Permutation_refl.
  - destruct (compare_keys keys x y); try apply Permutation_refl.
    eapply perm_trans; [apply perm_swap |]. apply perm_skip, IH.
Qed.

Lemma sort_docs_perm keys l : Permutation l (sort_docs keys l).
Proof.
  induction l as [| x l IH]; simpl.
  - apply perm_nil.
  - eapply perm_trans; [apply perm_skip, IH | apply insert_sorted_perm].
Qed.

Lemma insert_sorted_sorted keys x l :
  StronglySorted (sorts_before keys) l ->
  StronglySorted (sorts_before keys) (insert_sorted keys x l).
Proof.
  induction 1 as [| y l Hl IH Hy]; simpl.
  - repeat constructor.
  - destruct (compare_keys keys x y) eqn:Hxy.
    + constructor; [constructor; assumption |].
      assert (Hle : sorts_before keys x y) by (unfold sorts_before; congruence).
      constructor; [exact Hle |].
      eapply Forall_impl; [| exact Hy].
      intros z Hz. eapply sorts_before_trans; eassumption.
    + constructor; [constructor; assumption |].
      assert (Hle : sorts_before keys x y) by (unfold sorts_before; congruence).
      constructor; [exact Hle |].
      eapply Forall_impl; [| exact Hy].
      intros z Hz. eapply sorts_before_trans; eassumption.
    + constructor; [exact IH |].
      apply Forall_forall. intros z Hz.
      apply insert_sorted_In in Hz. destruct Hz as [-> | Hz].
      * apply sorts_before_total, Hxy.
      * rewrite Forall_forall in Hy. apply Hy, Hz.
Qed.

Lemma sort_docs_sorted keys l : StronglySorted (sorts_before keys) (sort_docs keys l).
Proof.
  induction l as [| x l IH]; simpl.
  - constructor.
  - apply insert_sorted_sorted, IH.
Qed.

(** ** Slices *)

Lemma skipn_incl {A} n (l : list A) x : In x (skipn n l) -> In x l.
Proof.
  revert l. induction n as [| n IH]; intros [| y l]; simpl; auto.
Qed.

Lemma firstn_incl {A} n (l : list A) x : In x (firstn n l) -> In x l.
Proof.
  revert l. induction n as [| n IH]; intros [| y l]; simpl; intuition.
Qed.

Lemma slice_incl {A} a b (l : list A) x : In x (slice a b l) -> In x l.
Proof. unfold slice. intros H. eapply skipn_incl, firstn_incl, H. Qed.

Lemma skipn_sorted {A} (R : A -> A -> Prop) n l :
  StronglySorted R l -> StronglySorted R (skipn n l).
Proof.
  revert l. induction n as [| n IH]; intros l Hl; simpl.
  - exact Hl.
  - destruct l as [| x l]; [constructor |].
    apply IH. inversion Hl; assumption.
Qed.

Lemma firstn_sorted {A} (R : A -> A -> Prop) n l :
  StronglySorted R l -> StronglySorted R (firstn n l).
Proof.
  revert l. induction n as [| n IH]; intros l Hl; simpl.
  - constructor.
  - destruct l as [| x l]; [constructor |].
    inversion Hl as [| ? ? Hl' Hx]; subst.
    constructor; [apply IH, Hl' |].
    apply Forall_forall. intros y Hy.
    rewrite Forall_forall in Hx. apply Hx. eapply firstn_incl, Hy.
Qed.

Lemma slice_sorted {A} (R : A -> A -> Prop) a b l :
  StronglySorted R l -> StronglySorted R (slice a b l).
Proof. intros H. unfold slice. apply firstn_sorted, skipn_sorted, H. Qed.

Lemma slice_length {A} a b (l : list A) :
  (List.length (slice a b l) <= Z.to_nat (b - a))%nat.
Proof. unfold slice. rewrite length_firstn. apply Nat.le_min_l. Qed.

(** The element at position [i] of a slice is the element at position
    [a + i] of the list. *)
Lemma slice_nth_error {A} a b (l : list A) i :
  nth_error (slice a b l) i
  = if (i <? Z.to_nat (b - a))%nat then nth_error l (Z.to_nat a + i) else None.
Proof. unfold slice. rewrite nth_error_firstn, nth_error_skipn. reflexivity. Qed.

Lemma sorted_map_impl {A B} (R : A -> A -> Prop) (R' : B -> B -> Prop) (P : A -> Prop)
    (f : A -> B) l :
  (forall a b, P a -> P b -> R a b -> R' (f a) (f b)) ->
  Forall P l -> StronglySorted R l -> StronglySorted R' (map f l).
Proof.
  intros Himp HP Hs. induction Hs as [| x l Hl IH Hx]; simpl.
  - constructor.
  - inversion HP as [| ? ? Px Pl]; subst.
    constructor; [apply IH, Pl |].
    rewrite Forall_forall in *. intros y Hy.
    apply in_map_iff in Hy. destruct Hy as [z [<- Hz]].
    apply Himp; auto.
Qed.

(** ** The listing is sorted and holds the posts of the window *)

Lemma enriched_has_counts st d : has_counts (enriched st d).
Proof. unfold has_counts, enriched. cbn [added]. eauto. Qed.

Lemma filter_q_all {S} (l : list (Doc S)) : filter q_all l = l.
Proof. induction l as [| d l IH]; simpl; congruence. Qed.

Lemma filter_q_in_window timeframe now d :
  filter_q timeframe now d = in_window timeframe now d.
Proof. destruct timeframe; reflexivity. Qed.

Lemma sorts_before_item_before sort_by x y :
  has_counts x -> has_counts y ->
  sorts_before (sort_keys sort_by) x y ->
  item_before sort_by (to_str_id_item x) (to_str_id_item y).
Proof.
  intros [n [m Hx]] [n' [m' Hy]].
  unfold sorts_before, item_before, votes_count, comments_count, created_ms.
  destruct sort_by; cbn [sort_keys compare_keys]; unfold sort_value;
    cbn [to_str_id_item numbers item_doc to_str_id created_at_iso iso_ms];
    rewrite Hx, Hy; cbn; intros H.
  - exists n, n'. repeat split.
    destruct (Z.compare_spec n n') as [Hn | Hn | Hn]; [right; split; [exact Hn |] | | lia].
    + destruct (Z.compare_spec (created_at (source x)) (created_at (source y)));
        simpl in H; congruence || lia.
    + simpl in H. congruence.
  - exists m, m'. repeat split.
    destruct (Z.compare_spec m m') as [Hm | Hm | Hm]; [right; split; [exact Hm |] | | lia].
    + destruct (Z.compare_spec (created_at (source x)) (created_at (source y)));
        simpl in H; congruence || lia.
    + simpl in H. congruence.
  - destruct (Z.compare_spec (created_at (source x)) (created_at (source y)));
      simpl in H; congruence || lia.
Qed.

Lemma sorted_enriched_has_counts st keys l :
  Forall has_counts (sort_docs keys (map (enriched st) l)).
Proof.
  apply Forall_forall. intros x Hx.
  apply sort_docs_In, in_map_iff in Hx. destruct Hx as [d [<- _]].
  apply enriched_has_counts.
Qed.

Lemma full_listing_sorted st timeframe sort_by now :
  StronglySorted (item_before sort_by) (full_listing st timeframe sort_by now).
Proof.
  rewrite full_listing_eq.
  eapply sorted_map_impl with (P := has_counts) (R := sorts_before (sort_keys sort_by)).
  - intros a b. apply sorts_before_item_before.
  - apply sorted_enriched_has_counts.
  - apply sort_docs_sorted.
Qed.

Lemma full_listing_perm st timeframe sort_by now :
  Permutation (map to_str_id (filter (in_window timeframe now) (post st)))
              (map item_doc (full_listing st timeframe sort_by now)).
Proof.
  rewrite full_listing_eq.
  rewrite (filter_ext _ _ (filter_q_in_window timeframe now)).
  rewrite map_map.
  set (l := filter (in_window timeframe now) (post st)).
  replace (map to_str_id l)
    with (map (fun x => item_doc (to_str_id_item x)) (map (enriched st) l))
    by (rewrite map_map; reflexivity).
  apply Permutation_map, sort_docs_perm.
Qed.

Lemma full_listing_counts st timeframe sort_by now i :
  In i (full_listing st timeframe sort_by now) ->
  votes_count i = Some 0 /\ comments_count i = Some 0.
Proof.
  rewrite full_listing_eq. intros Hi.
  apply in_map_iff in Hi. destruct Hi as [x [<- Hx]].
  apply sort_docs_In, in_map_iff in Hx. destruct Hx as [d [<- _]].
  rewrite enriched_eq. split; reflexivity.
Qed.

(* ================================================================== *)
(** * The listing, [GET /api/posts] *)
(* ================================================================== *)

(** Whatever the store holds, every item of a listing carries the counts
    zero: the two joins compare the identifier of the post with the text
    kept under [post_id] and attach nothing. *)
Lemma list_posts_counts_zero st page page_size timeframe sort_by now r :
  1 <= page -> 1 <= page_size ->
  fst (list_posts page page_size timeframe sort_by now (Some st)) = inr r ->
  forall i, In i (items r) -> votes_count i = Some 0 /\ comments_count i = Some 0.
Proof.
  intros Hpage Hsize Hr i Hi.
  apply list_posts_response in Hr; [| assumption | assumption].
  destruct Hr as [-> _]. cbn [items page_response] in Hi.
  eapply full_listing_counts, slice_incl, Hi.
Qed.

(** C1, at the input where the code departs from it. The store holds one
    post and one vote whose [post_id] is the identifier of that post
    rendered as text. The listing returns the post with [votes_count] 0,
    while the number of Vote records whose [post_id], as text, equals the
    identifier of the item, as text, is 1. *)
Theorem list_posts_sample_vote_not_counted :
  exists item,
    list_posts 1 8 all latest 5000 (Some sample_store)
      = (inr (mkListResponse [item] 1 1 8), Some sample_store) /\
    id (item_doc item) = str (_id sample_post) /\
    votes_count item = Some 0 /\
    votes_with_post_id sample_store (id (item_doc item)) = 1.
Proof.
  exists (to_str_id_item (enriched sample_store sample_post)).
  repeat split; vm_compute; reflexivity.
Qed.

(** The page [huge_page] of size 1 passes the declared bounds and skips
    [2^63] items, one more than 8 bytes hold: the call raises. *)
Lemma list_posts_huge_page st timeframe sort_by now :
  list_posts huge_page 1 timeframe sort_by now (Some st) = (inl overflow, Some st).
Proof. apply list_posts_overflow. reflexivity. Qed.

(** C2, as stated, fails: [page = 2^63 + 1] and [page_size = 1] are
    within the declared bounds, and the call returns no items at all, so
    not the slice either: it raises the overflow error of the driver. *)
Lemma list_posts_beyond_int64_no_slice :
  1 <= huge_page /\ 1 <= 1 <= 50 /\
  list_posts huge_page 1 all latest 5000 (Some three_posts)
  = (inl (OverflowError "MongoDB can only handle up to 8-byte ints"), Some three_posts) /\
  ~ (exists r,
       fst (list_posts huge_page 1 all latest 5000 (Some three_posts)) = inr r /\
       items r = slice ((huge_page - 1) * 1) (huge_page * 1)
                   (full_listing three_posts all latest 5000)).
Proof.
  split; [vm_compute; congruence |].
  split; [lia |].
  split; [apply list_posts_huge_page |].
  intros [r [H _]]. rewrite list_posts_huge_page in H. discriminate H.
Qed.

(** C2, amended. For every listing call with [page >= 1] and [page_size]
    in [1, 50]: the full listing holds exactly the posts of the time window
    and is ordered by the selected sort; when [(page-1)*page_size] is at
    most [2^63 - 1] the call returns, at most [page_size] items are
    returned, and the items are the slice [(page-1)*page_size,
    page*page_size) of the full listing; beyond that bound the call raises
    the overflow error and returns nothing. *)
Theorem list_posts_page_is_slice st page page_size timeframe sort_by now :
  1 <= page -> 1 <= page_size <= 50 ->
  Permutation (map to_str_id (filter (in_window timeframe now) (post st)))
              (map item_doc (full_listing st timeframe sort_by now)) /\
  StronglySorted (item_before sort_by) (full_listing st timeframe sort_by now) /\
  ((page - 1) * page_size <= int64_max ->
   exists r,
     list_posts page page_size timeframe sort_by now (Some st) = (inr r, Some st) /\
     Z.of_nat (List.length (items r)) <= page_size /\
     items r = slice ((page - 1) * page_size) (page * page_size)
                 (full_listing st timeframe sort_by now)) /\
  (int64_max < (page - 1) * page_size ->
   list_posts page page_size timeframe sort_by now (Some st) = (inl overflow, Some st)).
Proof.
  intros Hpage [Hsize Hmax].
  split; [apply full_listing_perm |].
  split; [apply full_listing_sorted |].
  split.
  - intros Hskip. eexists.
    split; [apply list_posts_eval; auto using fits_int64_small with zarith |].
    cbn [items]. split; [| reflexivity].
    pose proof (slice_length ((page - 1) * page_size) (page * page_size)
                  (full_listing st timeframe sort_by now)) as Hlen.
    replace (page * page_size - (page - 1) * page_size) with page_size in Hlen by lia.
    lia.
  - intros Hskip. apply list_posts_overflow, page_encodes_beyond; assumption.
Qed.

(** Page 2 of size 1 of the three posts, newest first: the one item is the
    third post, the second newest. *)
Lemma list_posts_page_is_slice_witness :
  exists r,
    list_posts 2 1 all latest 5000 (Some three_posts) = (inr r, Some three_posts) /\
    Z.of_nat (List.length (items r)) <= 1 /\
    items r = slice ((2 - 1) * 1) (2 * 1) (full_listing three_posts all latest 5000) /\
    map item_id (items r) = [str (_id third_post)].
Proof.
  destruct (list_posts_page_is_slice three_posts 2 1 all latest 5000)
    as [_ [_ [Hfits _]]]; [lia | lia |].
  destruct Hfits as [r [Hr [Hlen Hitems]]]; [unfold int64_max; lia |].
  exists r. split; [exact Hr |]. split; [exact Hlen |]. split; [exact Hitems |].
  rewrite Hitems. reflexivity.
Defined.

(** C3, as stated, fails: for one timeframe, page 1 returns the total 3
    and page [2^63 + 1], within the declared bounds, returns no total: the
    call raises before the posts are counted. *)
Lemma list_posts_beyond_int64_no_total :
  1 <= huge_page /\ 1 <= 1 <= 50 /\
  (exists r,
     list_posts 1 1 all votes 5000 (Some three_posts) = (inr r, Some three_posts) /\
     total r = 3) /\
  list_posts huge_page 1 all votes 5000 (Some three_posts)
  = (inl (OverflowError "MongoDB can only handle up to 8-byte ints"), Some three_posts) /\
  ~ (exists r,
       fst (list_posts huge_page 1 all votes 5000 (Some three_posts)) = inr r /\
       total r = 3).
Proof.
  split; [vm_compute; congruence |].
  split; [lia |].
  split; [| split; [apply list_posts_huge_page |]].
  - eexists. split; [apply list_posts_eval; vm_compute; congruence | reflexivity].
  - intros [r [H _]]. rewrite list_posts_huge_page in H. discriminate H.
Qed.

(** C3, amended. For every listing call with [page >= 1] and [page_size]
    in [1, 50]: when [(page-1)*page_size] is at most [2^63 - 1], [total] is
    the number of posts whose [created_at] lies in the requested window
    ([>= now - 7 days] for week, [>= now - 30 days] for month, every post
    for all), and for a fixed timeframe it is the same whatever [sort_by]
    and whichever such [page] and [page_size] are asked for; beyond that
    bound the call raises the overflow error and returns no total. *)
Theorem list_posts_total st page page_size timeframe sort_by now :
  1 <= page -> 1 <= page_size <= 50 ->
  ((page - 1) * page_size <= int64_max ->
   exists r,
     list_posts page page_size timeframe sort_by now (Some st) = (inr r, Some st) /\
     total r = Z.of_nat (List.length (filter (in_window timeframe now) (post st))) /\
     forall page' page_size' sort_by',
       1 <= page' -> 1 <= page_size' <= 50 -> (page' - 1) * page_size' <= int64_max ->
       exists r',
         list_posts page' page_size' timeframe sort_by' now (Some st) = (inr r', Some st) /\
         total r' = total r) /\
  (int64_max < (page - 1) * page_size ->
   list_posts page page_size timeframe sort_by now (Some st) = (inl overflow, Some st)).
Proof.
  intros Hpage [Hsize Hmax]. split.
  - intros Hskip. eexists.
    split; [apply list_posts_eval; auto using fits_int64_small with zarith |].
    cbn [total]. split.
    + rewrite (filter_ext _ _ (filter_q_in_window timeframe now)). reflexivity.
    + intros page' page_size' sort_by' Hpage' [Hsize' Hmax'] Hskip'.
      eexists.
      split; [apply list_posts_eval; auto using fits_int64_small with zarith |].
      reflexivity.
  - intros Hskip. apply list_posts_overflow, page_encodes_beyond; assumption.
Qed.

(** The week before the instant 700000000 starts at 95200000: of the
    three posts, created at 1000, 3000 and 2000, none is counted, on
    whichever page. *)
Lemma list_posts_total_witness :
  exists r,
    list_posts 1 8 week votes 700000000 (Some three_posts) = (inr r, Some three_posts) /\
    total r = Z.of_nat (List.length (filter (in_window week 700000000) (post three_posts))) /\
    total r = 0 /\
    forall page' page_size' sort_by',
      1 <= page' -> 1 <= page_size' <= 50 -> (page' - 1) * page_size' <= int64_max ->
      exists r',
        list_posts page' page_size' week sort_by' 700000000 (Some three_posts)
          = (inr r', Some three_posts) /\
        total r' = total r.
Proof.
  destruct (list_posts_total three_posts 1 8 week votes 700000000)
    as [Hfits _]; [lia | lia |].
  destruct Hfits as [r [Hr [Htotal Hsame]]]; [unfold int64_max; lia |].
  exists r. split; [exact Hr |]. split; [exact Htotal |].
  split; [rewrite Htotal; reflexivity | exact Hsame].
Defined.

(** C4, as stated, fails: the call for [page = 2^63 + 1] and
    [page_size = 1], within the declared bounds, returns no items, ordered
    or not: it raises the overflow error of the driver. *)
Lemma list_posts_beyond_int64_no_order :
  1 <= huge_page /\ 1 <= 1 <= 50 /\
  list_posts huge_page 1 all comments 5000 (Some three_posts)
  = (inl (OverflowError "MongoDB can only handle up to 8-byte ints"), Some three_posts) /\
  ~ (exists r,
       fst (list_posts huge_page 1 all comments 5000 (Some three_posts)) = inr r /\
       StronglySorted (item_before comments) (items r)).
Proof.
  split; [vm_compute; congruence |].
  split; [lia |].
  split; [apply list_posts_huge_page |].
  intros [r [H _]]. rewrite list_posts_huge_page in H. discriminate H.
Qed.

(** C4, amended. For every listing call with [page >= 1] and [page_size]
    in [1, 50]: when [(page-1)*page_size] is at most [2^63 - 1] the call
    returns and the returned items are ordered by the selected sort: for
    votes, by [votes_count] descending, then by [created_at] descending; for
    comments, by [comments_count] descending, then by [created_at]
    descending; for latest, by [created_at] descending; every item stands
    before every later item in that order. Beyond that bound the call
    raises the overflow error and returns nothing. *)
Theorem list_posts_sorted st page page_size timeframe sort_by now :
  1 <= page -> 1 <= page_size <= 50 ->
  ((page - 1) * page_size <= int64_max ->
   exists r,
     list_posts page page_size timeframe sort_by now (Some st) = (inr r, Some st) /\
     StronglySorted (item_before sort_by) (items r)) /\
  (int64_max < (page - 1) * page_size ->
   list_posts page page_size timeframe sort_by now (Some st) = (inl overflow, Some st)).
Proof.
  intros Hpage [Hsize Hmax]. split.
  - intros Hskip. eexists.
    split; [apply list_posts_eval; auto using fits_int64_small with zarith |].
    cbn [items]. apply slice_sorted, full_listing_sorted.
  - intros Hskip. apply list_posts_overflow, page_encodes_beyond; assumption.
Qed.

(** The three posts, stored in the order 1000, 3000, 2000 of their
    [created_at], are returned newest first. *)
Lemma list_posts_sorted_witness :
  exists r,
    list_posts 1 8 all latest 5000 (Some three_posts) = (inr r, Some three_posts) /\
    StronglySorted (item_before latest) (items r) /\
    map created_ms (items r) = [3000; 2000; 1000] /\
    map created_at (post three_posts) = [1000; 3000; 2000].
Proof.
  destruct (list_posts_sorted three_posts 1 8 all latest 5000)
    as [Hfits _]; [lia | lia |].
  destruct Hfits as [r [Hr Hsorted]]; [unfold int64_max; lia |].
  exists r. split; [exact Hr |]. split; [exact Hsorted |].
  assert (Hfst : fst (list_posts 1 8 all latest 5000 (Some three_posts)) = inr r)
    by (rewrite Hr; reflexivity).
  vm_compute in Hfst. injection Hfst as <-.
  split; reflexivity.
Defined.

(** C10. A request to [GET /api/posts] that gives no parameter is served
    with [page = 1], [page_size = 8], [timeframe = "all"] and
    [sort_by = "votes"]: it returns the first 8 items of the listing of all
    posts ordered by vote count. *)
Theorem list_posts_defaults now oid :
  validate_list_query (mkListQuery None None None None) = inr (1, 8, all, votes) /\
  forall st,
    app (GET_posts (mkListQuery None None None None)) now oid (Some st)
    = (inr (Listing
              {| items := firstn 8 (full_listing st all votes now);
                 total := Z.of_nat (List.length (post st));
                 page := 1;
                 page_size := 8 |}),
       Some st) /\
    Permutation (map to_str_id (post st)) (map item_doc (full_listing st all votes now)) /\
    StronglySorted (item_before votes) (full_listing st all votes now).
Proof.
  split; [reflexivity |]. intros st. repeat split.
  - cbn [app]. change (validate_list_query (mkListQuery None None None None))
      with (@inr Errors _ (1, 8, all, votes)).
    cbv beta iota. unfold respond.
    rewrite list_posts_eval by int64_lia.
    cbn [fst snd filter_q]. rewrite filter_q_all. reflexivity.
  - pose proof (full_listing_perm st all votes now) as H.
    change (in_window all now) with (@q_all Post.t) in H.
    rewrite filter_q_all in H. exact H.
  - apply full_listing_sorted.
Qed.

(* ================================================================== *)
(** * Handlers that write: what they leave in the store *)
(* ================================================================== *)

Lemma find_existsb {A} (f : A -> bool) l :
  existsb f l = true -> exists x, List.find f l = Some x /\ f x = true.
Proof.
  induction l as [| y l IH]; simpl; [discriminate |].
  destruct (f y) eqn:Hy; simpl; eauto.
Qed.

Lemma find_not_existsb {A} (f : A -> bool) l :
  existsb f l = false -> List.find f l = None.
Proof.
  induction l as [| y l IH]; simpl; [reflexivity |].
  destruct (f y); simpl; [discriminate | exact IH].
Qed.

Lemma find_filter_nil {A} (f : A -> bool) l :
  filter f l = [] -> List.find f l = None.
Proof.
  induction l as [| y l IH]; simpl; [reflexivity |].
  destruct (f y); [discriminate | exact IH].
Qed.

Lemma find_none_filter {A} (f : A -> bool) l :
  List.find f l = None -> filter f l = [].
Proof.
  induction l as [| y l IH]; simpl; [reflexivity |].
  destruct (f y); [discriminate | exact IH].
Qed.

Lemma find_app_last {A} (f : A -> bool) l x :
  List.find f l = None -> f x = true -> List.find f (l ++ [x]) = Some x.
Proof.
  induction l as [| y l IH]; simpl; intros Hl Hx.
  - rewrite Hx. reflexivity.
  - destruct (f y); [discriminate | auto].
Qed.

Lemma remove_first_app_last {S} (q : Query S) l x :
  existsb q l = false -> q x = true -> remove_first q (l ++ [x]) = l.
Proof.
  induction l as [| y l IH]; simpl; intros Hl Hx.
  - rewrite Hx. reflexivity.
  - destruct (q y); [discriminate |]. simpl in Hl. rewrite IH; auto.
Qed.

Lemma remove_first_filter_length {S} (q q' : Query S) l :
  (List.length (filter q (remove_first q' l)) <= List.length (filter q l))%nat.
Proof.
  induction l as [| y l IH]; simpl; [lia |].
  destruct (q' y); simpl; destruct (q y); simpl; lia.
Qed.

Lemma oid_eqb_refl o : oid_eqb o o = true.
Proof. unfold oid_eqb. apply String.eqb_refl. Qed.

Lemma store_eta st : {| post := post st; comment := comment st; vote := vote st |} = st.
Proof. destruct st; reflexivity. Qed.

(** The lookup of the post in [add_comment] and [toggle_vote]. *)
Lemma find_post_missing st pid :
  post_exists st pid = false -> find_post pid st = (inr None, st).
Proof.
  unfold post_exists, find_post, find_one, ret.
  destruct (ObjectId_of_str pid) as [oid |]; [| reflexivity].
  intros H. cbn [docs db_post]. unfold q_id.
  rewrite (find_not_existsb _ _ H). reflexivity.
Qed.

Lemma find_post_found st pid :
  post_exists st pid = true -> exists p, find_post pid st = (inr (Some p), st).
Proof.
  unfold post_exists, find_post, find_one.
  destruct (ObjectId_of_str pid) as [oid |]; [| discriminate].
  intros H. cbn [docs db_post]. unfold q_id.
  destruct (find_existsb _ _ H) as [p [Hp _]]. exists p. rewrite Hp. reflexivity.
Qed.

Lemma post_exists_cases st pid :
  (exists p, find_post pid st = (inr (Some p), st)) \/ find_post pid st = (inr None, st).
Proof.
  destruct (post_exists st pid) eqn:H.
  - left. apply find_post_found, H.
  - right. apply find_post_missing, H.
Qed.

(** [toggle_vote] when the pair has no vote and the new identifier is not
    in use: the vote is appended. *)
Lemma toggle_vote_insert st pid cid now oid :
  post_exists st pid = true ->
  List.find (q_vote pid cid) (vote st) = None ->
  existsb (q_id oid) (vote st) = false ->
  toggle_vote (VoteToggle.mk pid cid) now oid (Some st)
  = (inr (mkVoteResponse "voted" (Some (str oid))),
     Some {| post := post st; comment := comment st;
             vote := vote st ++ [mkDoc oid (Vote.mk pid cid) now now] |}).
Proof.
  intros Hpost Hfind Hfresh.
  destruct (find_post_found st pid Hpost) as [p Hp].
  unfold toggle_vote, with_db, bind. cbn [VoteToggle.post_id VoteToggle.client_id].
  rewrite Hp. unfold find_one. cbn [docs db_vote]. rewrite Hfind.
  unfold create_document, bind, insert_one. cbn [docs db_vote _id].
  rewrite Hfresh. reflexivity.
Qed.

(** [toggle_vote] when the pair has a vote [e]: the first vote that has
    the identifier of [e] is removed. *)
Lemma toggle_vote_delete st pid cid now oid e :
  post_exists st pid = true ->
  List.find (q_vote pid cid) (vote st) = Some e ->
  toggle_vote (VoteToggle.mk pid cid) now oid (Some st)
  = (inr (mkVoteResponse "unvoted" None),
     Some {| post := post st; comment := comment st;
             vote := remove_first (q_id (_id e)) (vote st) |}).
Proof.
  intros Hpost Hfind.
  destruct (find_post_found st pid Hpost) as [p Hp].
  unfold toggle_vote, with_db, bind. cbn [VoteToggle.post_id VoteToggle.client_id].
  rewrite Hp. unfold find_one. cbn [docs db_vote]. rewrite Hfind.
  reflexivity.
Qed.

Lemma toggle_vote_not_found st pid cid now oid :
  post_exists st pid = false ->
  toggle_vote (VoteToggle.mk pid cid) now oid (Some st)
  = (inl (HTTPException 404 "Post not found"), Some st).
Proof.
  intros H. unfold toggle_vote, with_db, bind. cbn [VoteToggle.post_id].
  rewrite (find_post_missing st pid H). reflexivity.
Qed.

Lemma toggle_vote_duplicate st pid cid now oid :
  post_exists st pid = true ->
  List.find (q_vote pid cid) (vote st) = None ->
  existsb (q_id oid) (vote st) = true ->
  toggle_vote (VoteToggle.mk pid cid) now oid (Some st) = (inl DuplicateKeyError, Some st).
Proof.
  intros Hpost Hfind Hdup.
  destruct (find_post_found st pid Hpost) as [p Hp].
  unfold toggle_vote, with_db, bind. cbn [VoteToggle.post_id VoteToggle.client_id].
  rewrite Hp. unfold find_one. cbn [docs db_vote]. rewrite Hfind.
  unfold create_document, bind, insert_one. cbn [docs db_vote _id].
  rewrite Hdup. reflexivity.
Qed.

Lemma add_comment_not_found st pid content author now oid :
  post_exists st pid = false ->
  add_comment (CommentCreate.mk pid content author) now oid (Some st)
  = (inl (HTTPException 404 "Post not found"), Some st).
Proof.
  intros H. unfold add_comment, with_db, bind. cbn [CommentCreate.post_id].
  rewrite (find_post_missing st pid H). reflexivity.
Qed.

Lemma add_comment_found st payload now oid :
  post_exists st (CommentCreate.post_id payload) = true ->
  add_comment payload now oid (Some st)
  = if existsb (q_id oid) (comment st)
    then (inl DuplicateKeyError, Some st)
    else (inr (str oid),
          Some {| post := post st;
                  comment := comment st ++ [mkDoc oid (CommentSchema payload) now now];
                  vote := vote st |}).
Proof.
  intros Hpost.
  destruct (find_post_found st _ Hpost) as [p Hp].
  unfold add_comment, with_db, bind.
  rewrite Hp. unfold create_document, bind, insert_one. cbn [docs db_comment _id].
  destruct (existsb (q_id oid) (comment st)); reflexivity.
Qed.

Lemma create_post_eval st payload now oid :
  create_post payload now oid (Some st)
  = if existsb (q_id oid) (post st)
    then (inl DuplicateKeyError, Some st)
    else (inr (str oid),
          Some {| post := post st ++ [mkDoc oid (PostSchema payload) now now];
                  comment := comment st;
                  vote := vote st |}).
Proof.
  unfold create_post, with_db, bind, create_document, bind, insert_one.
  cbn [docs db_post _id].
  destruct (existsb (q_id oid) (post st)); reflexivity.
Qed.

Lemma list_comments_eval st pid :
  list_comments pid (Some st)
  = (inr (map to_str_id (filter (q_comment_post pid) (comment st))), Some st).
Proof. reflexivity. Qed.

(** ** One request, one step of the store *)

Lemma respond_snd {A} (wrap : A -> Response) (h : Handler A) db :
  snd (respond wrap h db) = snd (h db).
Proof. unfold respond. destruct (fst (h db)); reflexivity. Qed.

Lemma list_posts_reads st page page_size timeframe sort_by now :
  snd (list_posts page page_size timeframe sort_by now (Some st)) = Some st.
Proof.
  unfold list_posts, with_db, bind, aggregate. cbn [snd].
  destruct (forallb stage_encodes _); [| reflexivity].
  destruct (run_pipeline st _ _); reflexivity.
Qed.

Lemma toggle_vote_step st payload now oid :
  exists st', snd (toggle_vote payload now oid (Some st)) = Some st' /\ store_step st st'.
Proof.
  destruct payload as [pid cid].
  destruct (post_exists st pid) eqn:Hpost.
  - destruct (List.find (q_vote pid cid) (vote st)) as [e |] eqn:Hfind.
    + rewrite (toggle_vote_delete st pid cid now oid e Hpost Hfind).
      eexists. split; [reflexivity | apply step_vote_off].
    + destruct (existsb (q_id oid) (vote st)) eqn:Hfresh.
      * rewrite (toggle_vote_duplicate st pid cid now oid Hpost Hfind Hfresh).
        eexists. split; [reflexivity | apply step_same].
      * rewrite (toggle_vote_insert st pid cid now oid Hpost Hfind Hfresh).
        eexists. split; [reflexivity |].
        apply (step_vote_on st (mkDoc oid (Vote.mk pid cid) now now)); assumption.
  - rewrite (toggle_vote_not_found st pid cid now oid Hpost).
    eexists. split; [reflexivity | apply step_same].
Qed.

Lemma add_comment_step st payload now oid :
  exists st', snd (add_comment payload now oid (Some st)) = Some st' /\ store_step st st'.
Proof.
  destruct (post_exists st (CommentCreate.post_id payload)) eqn:Hpost.
  - rewrite (add_comment_found st payload now oid Hpost).
    destruct (existsb (q_id oid) (comment st)).
    + eexists. split; [reflexivity | apply step_same].
    + eexists. split; [reflexivity |].
      apply (step_comment st (mkDoc oid (CommentSchema payload) now now)).
      exact Hpost.
  - destruct payload as [pid content author]. cbn [CommentCreate.post_id] in Hpost.
    rewrite (add_comment_not_found st pid content author now oid Hpost).
    eexists. split; [reflexivity | apply step_same].
Qed.

Lemma create_post_step st payload now oid :
  exists st', snd (create_post payload now oid (Some st)) = Some st' /\ store_step st st'.
Proof.
  rewrite create_post_eval.
  destruct (existsb (q_id oid) (post st)).
  - eexists. split; [reflexivity | apply step_same].
  - eexists. split; [reflexivity | apply step_post].
Qed.

(** Every request served on a configured database makes one step. *)
Lemma app_step r now oid st :
  exists st', snd (app r now oid (Some st)) = Some st' /\ store_step st st'.
Proof.
  destruct r as [| q | body | body | body | pid]; cbn [app].
  - exists st. split; [reflexivity | apply step_same].
  - destruct (validate_list_query q) as [errors | [[[pg ps] tf] sb]].
    + exists st. split; [reflexivity | apply step_same].
    + rewrite respond_snd, list_posts_reads.
      exists st. split; [reflexivity | apply step_same].
  - destruct (validate_PostCreate body) as [errors | payload].
    + exists st. split; [reflexivity | apply step_same].
    + rewrite respond_snd. apply create_post_step.
  - destruct (validate_CommentCreate body) as [errors | payload].
    + exists st. split; [reflexivity | apply step_same].
    + rewrite respond_snd. apply add_comment_step.
  - destruct (validate_VoteToggle body) as [errors | payload].
    + exists st. split; [reflexivity | apply step_same].
    + rewrite respond_snd. apply toggle_vote_step.
  - exists st. split; [reflexivity | apply step_same].
Qed.

(** Without a database nothing is ever stored. *)
Lemma app_unconfigured r now oid : snd (app r now oid None) = None.
Proof.
  destruct r as [| q | body | body | body | pid]; cbn [app].
  - reflexivity.
  - destruct (validate_list_query q) as [errors | [[[pg ps] tf] sb]]; reflexivity.
  - destruct (validate_PostCreate body); reflexivity.
  - destruct (validate_CommentCreate body); reflexivity.
  - destruct (validate_VoteToggle body); reflexivity.
  - reflexivity.
Qed.

Lemma q_vote_true p c v :
  q_vote p c v = true -> Vote.post_id (body v) = p /\ Vote.client_id (body v) = c.
Proof.
  unfold q_vote. intros H. apply andb_true_iff in H. destruct H as [Hp Hc].
  apply String.eqb_eq in Hp, Hc. auto.
Qed.

Lemma q_vote_refl v : q_vote (Vote.post_id (body v)) (Vote.client_id (body v)) v = true.
Proof. unfold q_vote. rewrite !String.eqb_refl. reflexivity. Qed.

Lemma store_step_votes_unique st st' :
  store_step st st' -> votes_unique (Some st) -> votes_unique (Some st').
Proof.
  intros Hstep Hinv. simpl in *. unfold live_votes in *.
  destruct Hstep as [| p | c Hc | v Hpost Hfind Hfresh | q]; cbn [vote]; intros pid cid.
  - apply Hinv.
  - apply Hinv.
  - apply Hinv.
  - rewrite filter_app, length_app. cbn [filter].
    destruct (q_vote pid cid v) eqn:Hq.
    + apply q_vote_true in Hq. destruct Hq as [<- <-].
      rewrite (find_none_filter _ _ Hfind). simpl. lia.
    + specialize (Hinv pid cid). simpl. lia.
  - specialize (Hinv pid cid).
    pose proof (remove_first_filter_length (q_vote pid cid) q (vote st)). lia.
Qed.

Lemma post_exists_step st st' pid :
  store_step st st' -> post_exists st pid = true -> post_exists st' pid = true.
Proof.
  unfold post_exists. destruct (ObjectId_of_str pid) as [oid |]; [| discriminate].
  intros Hstep H. destruct Hstep; cbn [post]; try exact H.
  rewrite existsb_app, H. reflexivity.
Qed.

Lemma store_step_comments_refer st st' :
  store_step st st' -> comments_refer st -> comments_refer st'.
Proof.
  intros Hstep Hinv c Hc.
  assert (Hold : In c (comment st) -> post_exists st' (Comment.post_id (body c)) = true).
  { intros Hin. eapply post_exists_step; [exact Hstep | apply Hinv, Hin]. }
  destruct Hstep as [| p | c' Hc' | v Hpost Hfind Hfresh | q]; cbn [comment] in Hc; auto.
  apply in_app_or in Hc. destruct Hc as [Hc | [<- | []]]; auto.
Qed.

(* ================================================================== *)
(** * Vote toggle, comment creation, comment listing *)
(* ================================================================== *)

(** C5. For an existing post and any client, starting from a store with no
    live vote for the pair, two toggles in sequence report ["voted"] (with
    the new identifier) and then ["unvoted"]; the pair has one live vote in
    between and none at the end, and the store after the second toggle is
    the initial store. The identifier generated for the new vote is one no
    stored vote has. *)
Theorem toggle_vote_twice st pid cid now1 oid1 now2 oid2 :
  post_exists st pid = true ->
  live_votes st pid cid = 0%nat ->
  existsb (q_id oid1) (vote st) = false ->
  exists st1,
    toggle_vote (VoteToggle.mk pid cid) now1 oid1 (Some st)
      = (inr (mkVoteResponse "voted" (Some (str oid1))), Some st1) /\
    live_votes st1 pid cid = 1%nat /\
    toggle_vote (VoteToggle.mk pid cid) now2 oid2 (Some st1)
      = (inr (mkVoteResponse "unvoted" None), Some st) /\
    live_votes st pid cid = 0%nat.
Proof.
  intros Hpost Hlive Hfresh.
  assert (Hnil : filter (q_vote pid cid) (vote st) = []).
  { apply length_zero_iff_nil. exact Hlive. }
  pose proof (find_filter_nil _ _ Hnil) as Hfind.
  set (v := mkDoc oid1 (Vote.mk pid cid) now1 now1).
  assert (Hv : q_vote pid cid v = true) by apply (q_vote_refl v).
  exists {| post := post st; comment := comment st; vote := vote st ++ [v] |}.
  split; [apply toggle_vote_insert; assumption |].
  split.
  { unfold live_votes. cbn [vote]. rewrite filter_app, Hnil. cbn [filter app].
    rewrite Hv. reflexivity. }
  split; [| exact Hlive].
  rewrite (toggle_vote_delete _ pid cid now2 oid2 v).
  - cbn [post comment vote _id v].
    rewrite remove_first_app_last.
    + rewrite store_eta. reflexivity.
    + exact Hfresh.
    + apply oid_eqb_refl.
  - exact Hpost.
  - cbn [vote]. apply find_app_last; assumption.
Qed.

Lemma toggle_vote_twice_witness :
  exists st1,
    toggle_vote (VoteToggle.mk (str (_id sample_post)) "c2") 3000
                (mkObjectId "000000000003") (Some sample_store)
      = (inr (mkVoteResponse "voted" (Some (str (mkObjectId "000000000003")))), Some st1) /\
    live_votes st1 (str (_id sample_post)) "c2" = 1%nat /\
    toggle_vote (VoteToggle.mk (str (_id sample_post)) "c2") 4000
                (mkObjectId "000000000004") (Some st1)
      = (inr (mkVoteResponse "unvoted" None), Some sample_store) /\
    live_votes sample_store (str (_id sample_post)) "c2" = 0%nat.
Proof.
  apply (toggle_vote_twice sample_store (str (_id sample_post)) "c2" 3000
           (mkObjectId "000000000003") 4000 (mkObjectId "000000000004"));
    reflexivity.
Defined.

Lemma app_keeps_votes_unique r now oid db :
  votes_unique db -> votes_unique (snd (app r now oid db)).
Proof.
  destruct db as [st |].
  - intros Hinv. destruct (app_step r now oid st) as [st' [-> Hstep]].
    eapply store_step_votes_unique; eassumption.
  - intros _. rewrite app_unconfigured. exact I.
Qed.

(** C6. Every request served, one after the other, keeps the invariant
    that each pair [(post_id, client_id)] has at most one live Vote
    record. *)
Theorem app_preserves_votes_unique r now oid db :
  votes_unique db -> votes_unique (snd (app r now oid db)).
Proof. apply app_keeps_votes_unique. Qed.

Lemma app_preserves_votes_unique_witness :
  votes_unique
    (snd (app (POST_vote_toggle
                 (JObject [("post_id", JString (str (_id sample_post)));
                           ("client_id", JString "c2")]))
              3000 (mkObjectId "000000000003") (Some sample_store))).
Proof.
  apply (app_preserves_votes_unique _ 3000 (mkObjectId "000000000003") (Some sample_store)).
  intros p c. unfold live_votes. simpl.
  destruct (q_vote p c sample_vote); simpl; lia.
Defined.

(** The invariant holds in every state reached from a store that has
    it, in particular from the empty store. *)
Lemma reachable_votes_unique db db' :
  votes_unique db -> reachable db db' -> votes_unique db'.
Proof.
  intros Hinv Hreach. induction Hreach as [| db' r now oid _ IH].
  - exact Hinv.
  - apply app_keeps_votes_unique, IH.
Qed.

(** A text that is not a well-formed identifier resolves to no post. *)
Lemma malformed_post_id_no_post st pid :
  ObjectId_of_str pid = None -> post_exists st pid = false.
Proof. unfold post_exists. intros ->. reflexivity. Qed.

(** C7. A comment creation or a vote toggle whose [post_id] does not
    resolve to an existing Post (a text that is not a well-formed
    identifier resolves to none) fails with the not-found error 404 and
    leaves the store as it was: nothing is inserted and nothing deleted. *)
Theorem missing_post_not_found st pid :
  post_exists st pid = false ->
  (forall content author now oid,
     add_comment (CommentCreate.mk pid content author) now oid (Some st)
     = (inl (HTTPException 404 "Post not found"), Some st)) /\
  (forall cid now oid,
     toggle_vote (VoteToggle.mk pid cid) now oid (Some st)
     = (inl (HTTPException 404 "Post not found"), Some st)).
Proof.
  intros H. split; intros.
  - apply add_comment_not_found, H.
  - apply toggle_vote_not_found, H.
Qed.

Lemma missing_post_not_found_witness :
  (forall content author now oid,
     add_comment (CommentCreate.mk "not-an-identifier" content author) now oid
                 (Some sample_store)
     = (inl (HTTPException 404 "Post not found"), Some sample_store)) /\
  (forall cid now oid,
     toggle_vote (VoteToggle.mk "not-an-identifier" cid) now oid (Some sample_store)
     = (inl (HTTPException 404 "Post not found"), Some sample_store)).
Proof.
  apply (missing_post_not_found sample_store "not-an-identifier").
  reflexivity.
Defined.

(** Every comment refers to an existing post in every state reached from
    a store where this holds, in particular from the empty store. *)
Lemma reachable_comments_refer st db' :
  comments_refer st -> reachable (Some st) db' ->
  exists st', db' = Some st' /\ comments_refer st'.
Proof.
  intros Hinv Hreach. induction Hreach as [| db' r now oid _ [st1 [-> IH]]].
  - eauto.
  - destruct (app_step r now oid st1) as [st' [-> Hstep]].
    exists st'. split; [reflexivity |].
    eapply store_step_comments_refer; eassumption.
Qed.

(** C9. For every text [post_id], [GET /api/comments/{post_id}] succeeds
    and returns the comments whose [post_id] field equals that text, in
    store order. For a [post_id] that resolves to no existing Post it still
    succeeds, where comment creation and vote toggle answer 404, and its
    list is empty as soon as every stored comment refers to an existing
    post. *)
Theorem list_comments_succeeds st pid :
  list_comments pid (Some st)
  = (inr (map to_str_id
            (filter (fun c => String.eqb (Comment.post_id (body c)) pid) (comment st))),
     Some st) /\
  (post_exists st pid = false ->
   (forall content author now oid,
      fst (add_comment (CommentCreate.mk pid content author) now oid (Some st))
      = inl (HTTPException 404 "Post not found")) /\
   (forall cid now oid,
      fst (toggle_vote (VoteToggle.mk pid cid) now oid (Some st))
      = inl (HTTPException 404 "Post not found")) /\
   (comments_refer st -> list_comments pid (Some st) = (inr [], Some st))).
Proof.
  split; [reflexivity |].
  intros Hmissing. repeat split; intros.
  - rewrite add_comment_not_found by assumption. reflexivity.
  - rewrite toggle_vote_not_found by assumption. reflexivity.
  - rewrite list_comments_eval.
    replace (filter (q_comment_post pid) (comment st)) with (@nil (Doc Comment.t));
      [reflexivity |].
    symmetry. apply find_none_filter.
    destruct (List.find (q_comment_post pid) (comment st)) as [c |] eqn:Hfind;
      [| reflexivity].
    apply find_some in Hfind. destruct Hfind as [Hin Hq].
    unfold q_comment_post in Hq. apply String.eqb_eq in Hq.
    specialize (H c Hin). rewrite Hq in H. congruence.
Qed.

Lemma list_comments_succeeds_witness :
  list_comments "not-an-identifier" (Some sample_store) = (inr [], Some sample_store).
Proof.
  apply (list_comments_succeeds sample_store "not-an-identifier").
  - reflexivity.
  - intros c Hc. simpl in Hc. destruct Hc.
Defined.

(* ================================================================== *)
(** * Post creation, [POST /api/posts] *)
(* ================================================================== *)

Lemma validate_PostCreate_rejects body :
  field_is_text "title" body = false \/ field_is_text "description" body = false ->
  exists errors, validate_PostCreate body = inl errors.
Proof.
  destruct body as [| b | z | s | l | o]; simpl; eauto.
  unfold required_str.
  intros [H | H].
  - destruct (assoc "title" o) as [[| b | z | s | l | o'] |]; try discriminate;
      destruct (assoc "description" o) as [[| b' | z' | s' | l' | o''] |];
      destruct (optional_str "link" o), (str_list "tags" o),
               (optional_str "author_name" o); eauto.
  - destruct (assoc "description" o) as [[| b | z | s | l | o'] |]; try discriminate;
      destruct (assoc "title" o) as [[| b' | z' | s' | l' | o''] |];
      destruct (optional_str "link" o), (str_list "tags" o),
               (optional_str "author_name" o); eauto.
Qed.

Lemma validate_PostCreate_accepts body payload :
  validate_PostCreate body = inr payload ->
  field_is_text "title" body = true /\ field_is_text "description" body = true.
Proof.
  destruct (field_is_text "title" body) eqn:Ht;
    destruct (field_is_text "description" body) eqn:Hd; auto;
    intros Hv;
    destruct (validate_PostCreate_rejects body) as [errors He]; auto; congruence.
Qed.

(** The empty text is a text: a body whose title and description are
    empty passes validation. *)
Lemma validate_PostCreate_empty_texts :
  validate_PostCreate empty_texts_body = inr (PostCreate.mk "" "" None [] None).
Proof. reflexivity. Qed.

(** C8, as stated, fails: a post-creation request whose title and
    description are both the empty text is not refused. It is answered
    with the new identifier and the post is stored. *)
Lemma create_post_accepts_empty_title :
  field_is_empty_text "title" empty_texts_body = true /\
  field_is_empty_text "description" empty_texts_body = true /\
  app (POST_posts empty_texts_body) 7000 (mkObjectId "000000000009") (Some empty_store)
  = (inr (Created (str (mkObjectId "000000000009"))),
     Some {| post := [mkDoc (mkObjectId "000000000009") (Post.mk "" "" None [] None)
                            7000 7000];
             comment := []; vote := [] |}) /\
  ~ (exists errors,
       app (POST_posts empty_texts_body) 7000 (mkObjectId "000000000009") (Some empty_store)
       = (inl (RequestValidationError errors), Some empty_store)).
Proof.
  repeat split.
  intros [errors H]. vm_compute in H. discriminate H.
Qed.

(** C8, amended. A post-creation request in which title or description is
    absent or is not a text fails with a validation error and the store is
    left as it was, also when no database is configured; the store changes
    only when both title and description are present as texts. The empty
    text is accepted. *)
Theorem create_post_validation body now oid db :
  (field_is_text "title" body = false \/ field_is_text "description" body = false ->
   exists errors,
     app (POST_posts body) now oid db = (inl (RequestValidationError errors), db)) /\
  (snd (app (POST_posts body) now oid db) <> db ->
   field_is_text "title" body = true /\ field_is_text "description" body = true).
Proof.
  split.
  - intros H. destruct (validate_PostCreate_rejects body H) as [errors He].
    exists errors. cbn [app]. rewrite He. reflexivity.
  - cbn [app]. destruct (validate_PostCreate body) as [errors | payload] eqn:Hv.
    + intros Hchanged. exfalso. apply Hchanged. reflexivity.
    + intros _. eapply validate_PostCreate_accepts, Hv.
Qed.

Lemma create_post_validation_witness :
  (exists errors,
     app (POST_posts (JObject [("title", JNumber 3); ("description", JString "Y")]))
         7000 (mkObjectId "000000000009") (Some sample_store)
     = (inl (RequestValidationError errors), Some sample_store)) /\
  field_is_text "title" empty_texts_body = true /\
  field_is_text "description" empty_texts_body = true.
Proof.
  split.
  - apply (create_post_validation
             (JObject [("title", JNumber 3); ("description", JString "Y")])
             7000 (mkObjectId "000000000009") (Some sample_store)).
    left. reflexivity.
  - apply (create_post_validation empty_texts_body
             7000 (mkObjectId "000000000009") (Some sample_store)).
    vm_compute. discriminate.
Defined.

(* ================================================================== *)
(** * Further properties of the listing *)
(* ================================================================== *)

Lemma full_listing_length st timeframe sort_by now :
  List.length (full_listing st timeframe sort_by now)
  = List.length (filter (filter_q timeframe now) (post st)).
Proof.
  rewrite full_listing_eq, length_map.
  rewrite <- (Permutation_length (sort_docs_perm _ _)).
  apply length_map.
Qed.

Lemma validate_list_query_sound q page page_size timeframe sort_by :
  validate_list_query q = inr (page, page_size, timeframe, sort_by) ->
  1 <= page /\ 1 <= page_size <= 50.
Proof.
  unfold validate_list_query.
  destruct (Z.leb_spec 1 (default 1 (q_page q)));
    destruct (Z.ltb_spec (default 8 (q_page_size q)) 1);
    destruct (Z.ltb_spec 50 (default 8 (q_page_size q)));
    destruct (parse_timeframe (default "all" (q_timeframe q)));
    destruct (parse_sort_by (default "votes" (q_sort_by q)));
    cbn; intros Hv; try discriminate; injection Hv as <- <- _ _; lia.
Qed.

Lemma parse_timeframe_literal s :
  parse_timeframe s
  = if existsb (String.eqb s) ["week"; "month"; "all"] then parse_timeframe s else None.
Proof.
  unfold parse_timeframe. cbn [existsb].
  destruct (String.eqb s "week"), (String.eqb s "month"), (String.eqb s "all"); reflexivity.
Qed.

Lemma parse_timeframe_accepts s :
  existsb (String.eqb s) ["week"; "month"; "all"] = true ->
  exists t, parse_timeframe s = Some t.
Proof.
  unfold parse_timeframe. cbn [existsb].
  destruct (String.eqb s "week"), (String.eqb s "month"), (String.eqb s "all");
    intros Hs; try discriminate Hs; eauto.
Qed.

Lemma parse_sort_by_literal s :
  parse_sort_by s
  = if existsb (String.eqb s) ["votes"; "comments"; "latest"] then parse_sort_by s else None.
Proof.
  unfold parse_sort_by. cbn [existsb].
  destruct (String.eqb s "votes"), (String.eqb s "comments"), (String.eqb s "latest");
    reflexivity.
Qed.

Lemma parse_sort_by_accepts s :
  existsb (String.eqb s) ["votes"; "comments"; "latest"] = true ->
  exists t, parse_sort_by s = Some t.
Proof.
  unfold parse_sort_by. cbn [existsb].
  destruct (String.eqb s "votes"), (String.eqb s "comments"), (String.eqb s "latest");
    intros Hs; try discriminate Hs; eauto.
Qed.

Lemma validate_list_query_valid q :
  valid_list_query q = true -> exists v, validate_list_query q = inr v.
Proof.
  unfold valid_list_query. intros Hv.
  apply andb_true_iff in Hv. destruct Hv as [Hv Hsb].
  apply andb_true_iff in Hv. destruct Hv as [Hv Htf].
  apply andb_true_iff in Hv. destruct Hv as [Hv Hhi].
  apply andb_true_iff in Hv. destruct Hv as [Hpage Hlo].
  destruct (parse_timeframe_accepts _ Htf) as [t Ht].
  destruct (parse_sort_by_accepts _ Hsb) as [b Hb].
  unfold validate_list_query. rewrite Ht, Hb, Hpage.
  apply Z.leb_le in Hlo, Hhi.
  destruct (Z.ltb_spec (default 8 (q_page_size q)) 1); [lia |].
  destruct (Z.ltb_spec 50 (default 8 (q_page_size q))); [lia |].
  eexists. reflexivity.
Qed.

Lemma validate_list_query_invalid q :
  valid_list_query q = false ->
  exists e errors, validate_list_query q = inl (e :: errors).
Proof.
  unfold valid_list_query, validate_list_query.
  rewrite (parse_timeframe_literal (default "all" (q_timeframe q))).
  rewrite (parse_sort_by_literal (default "votes" (q_sort_by q))).
  set (tf := default "all" (q_timeframe q)). set (sb := default "votes" (q_sort_by q)).
  destruct (existsb (String.eqb tf) ["week"; "month"; "all"]);
    destruct (existsb (String.eqb sb) ["votes"; "comments"; "latest"]);
    destruct (parse_timeframe tf); destruct (parse_sort_by sb);
    destruct (Z.leb_spec 1 (default 1 (q_page q)));
    destruct (Z.leb_spec 1 (default 8 (q_page_size q)));
    destruct (Z.leb_spec (default 8 (q_page_size q)) 50);
    destruct (Z.ltb_spec (default 8 (q_page_size q)) 1); try lia;
    destruct (Z.ltb_spec 50 (default 8 (q_page_size q))); try lia;
    cbn [andb List.app]; intros Hv; try discriminate Hv; eauto.
Qed.

Lemma validate_list_query_values q page page_size timeframe sort_by :
  validate_list_query q = inr (page, page_size, timeframe, sort_by) ->
  page = default 1 (q_page q) /\ page_size = default 8 (q_page_size q).
Proof.
  unfold validate_list_query.
  destruct (Z.leb_spec 1 (default 1 (q_page q)));
    destruct (Z.ltb_spec (default 8 (q_page_size q)) 1);
    destruct (Z.ltb_spec 50 (default 8 (q_page_size q)));
    destruct (parse_timeframe (default "all" (q_timeframe q)));
    destruct (parse_sort_by (default "votes" (q_sort_by q)));
    cbn; intros Hv; try discriminate; injection Hv as <- <- _ _; split; reflexivity.
Qed.

Lemma page_items_eq st page page_size timeframe sort_by now :
  1 <= page -> 1 <= page_size -> page_size <= int64_max ->
  (page - 1) * page_size <= int64_max ->
  page_items st page_size timeframe sort_by now page
  = firstn (Z.to_nat page_size)
      (skipn (Z.to_nat (page - 1) * Z.to_nat page_size)
         (full_listing st timeframe sort_by now)).
Proof.
  intros Hpage Hsize Hlimit Hskip. unfold page_items.
  rewrite list_posts_eval by assumption. cbn [fst items]. unfold slice.
  replace (page * page_size - (page - 1) * page_size) with page_size by lia.
  rewrite Z2Nat.inj_mul by lia. reflexivity.
Qed.

Lemma page_items_overflow st page page_size timeframe sort_by now :
  page_encodes page page_size = false ->
  page_items st page_size timeframe sort_by now page = [].
Proof.
  intros Henc. unfold page_items. rewrite list_posts_overflow by exact Henc. reflexivity.
Qed.

Lemma firstn_plus {A} a b (l : list A) :
  firstn (a + b) l = firstn a l ++ firstn b (skipn a l).
Proof.
  revert l. induction a as [| a IH]; intros l; [reflexivity |].
  destruct l as [| x l]; simpl.
  - destruct b; reflexivity.
  - rewrite IH. reflexivity.
Qed.

Lemma filter_length_le {A} (f g : A -> bool) l :
  (forall x, f x = true -> g x = true) ->
  (List.length (filter f l) <= List.length (filter g l))%nat.
Proof.
  intros Hfg. induction l as [| x l IH]; simpl; [lia |].
  destruct (f x) eqn:Hf.
  - rewrite (Hfg x Hf). simpl. lia.
  - destruct (g x); simpl; lia.
Qed.

(** X1. [GET /api/posts] passes validation exactly when the query is within
    the declared bounds: [page >= 1], [1 <= page_size <= 50], [timeframe]
    one of week, month, all and [sort_by] one of votes, comments, latest,
    with 1, 8, all and votes for omitted parameters. A query within the
    bounds is answered with a listing when its [(page-1)*page_size] is at
    most [2^63 - 1], and with the overflow error of the driver, the store
    untouched, beyond. Any other query is answered with a validation error
    that names at least one parameter, before the database is looked at,
    configured or not. *)
Theorem list_query_bounds q now oid :
  (valid_list_query q = true ->
   forall st,
     (query_skip q <= int64_max ->
      exists r, app (GET_posts q) now oid (Some st) = (inr (Listing r), Some st)) /\
     (int64_max < query_skip q ->
      app (GET_posts q) now oid (Some st) = (inl overflow, Some st))) /\
  (valid_list_query q = false ->
   forall db, exists e errors,
     app (GET_posts q) now oid db = (inl (RequestValidationError (e :: errors)), db)).
Proof.
  split.
  - intros Hv st. destruct (validate_list_query_valid q Hv) as [[[[pg ps] tf] sb] Hq].
    destruct (validate_list_query_sound q pg ps tf sb Hq) as [Hpage [Hsize Hmax]].
    destruct (validate_list_query_values q pg ps tf sb Hq) as [Epg Eps].
    unfold query_skip. rewrite <- Epg, <- Eps.
    cbn [app]. rewrite Hq. unfold respond. split; intros Hskip.
    + rewrite list_posts_eval by auto using fits_int64_small with zarith.
      cbn [fst snd]. eauto.
    + rewrite list_posts_overflow by (apply page_encodes_beyond; assumption).
      reflexivity.
  - intros Hv db. destruct (validate_list_query_invalid q Hv) as [e [errors Hq]].
    exists e, errors. cbn [app]. rewrite Hq. reflexivity.
Qed.

(** Page 2 of 50 items is listed; page [2^63 + 1] of one item passes the
    bounds and is answered with the overflow error; a page of 51 items is
    refused. *)
Lemma list_query_bounds_witness :
  (exists r,
     app (GET_posts (mkListQuery (Some 2) (Some 50) (Some "week") None)) 5000
         (mkObjectId "000000000003") (Some three_posts)
     = (inr (Listing r), Some three_posts)) /\
  app (GET_posts (mkListQuery (Some huge_page) (Some 1) None None)) 5000
      (mkObjectId "000000000003") (Some three_posts)
  = (inl overflow, Some three_posts) /\
  (exists e errors,
     app (GET_posts (mkListQuery (Some 1) (Some 51) None None)) 5000
         (mkObjectId "000000000003") None
     = (inl (RequestValidationError (e :: errors)), None)).
Proof.
  split; [| split].
  - apply (list_query_bounds (mkListQuery (Some 2) (Some 50) (Some "week") None) 5000
             (mkObjectId "000000000003")).
    + reflexivity.
    + vm_compute. discriminate.
  - apply (list_query_bounds (mkListQuery (Some huge_page) (Some 1) None None) 5000
             (mkObjectId "000000000003")).
    + reflexivity.
    + reflexivity.
  - apply (list_query_bounds (mkListQuery (Some 1) (Some 51) None None) 5000
             (mkObjectId "000000000003")).
    reflexivity.
Defined.

(** X2. For a page within the declared bounds whose [(page-1)*page_size]
    is at most [2^63 - 1], [total] is the count of the whole window and the
    page holds exactly [min(page_size, max(0, total - (page-1) *
    page_size))] items: full pages up to the last one, the remainder on the
    last one, and nothing past it. *)
Theorem list_posts_page_length st page page_size timeframe sort_by now :
  1 <= page -> 1 <= page_size <= 50 -> (page - 1) * page_size <= int64_max ->
  exists r,
    list_posts page page_size timeframe sort_by now (Some st) = (inr r, Some st) /\
    total r = Z.of_nat (List.length (filter (in_window timeframe now) (post st))) /\
    Z.of_nat (List.length (items r))
    = Z.min page_size (Z.max 0 (total r - (page - 1) * page_size)).
Proof.
  intros Hpage [Hsize Hmax] Hskip. eexists.
  split; [apply list_posts_eval; auto using fits_int64_small with zarith |].
  cbn [items total]. split.
  - rewrite (filter_ext _ _ (filter_q_in_window timeframe now)). reflexivity.
  - unfold slice.
    rewrite length_firstn, length_skipn, full_listing_length.
    replace (page * page_size - (page - 1) * page_size) with page_size by lia.
    assert (0 <= (page - 1) * page_size) by nia.
    lia.
Qed.

(** Three posts in pages of two: the second page holds the one post that
    remains. *)
Lemma list_posts_page_length_witness :
  exists r,
    list_posts 2 2 all latest 5000 (Some three_posts) = (inr r, Some three_posts) /\
    total r = Z.of_nat (List.length (filter (in_window all 5000) (post three_posts))) /\
    Z.of_nat (List.length (items r)) = Z.min 2 (Z.max 0 (total r - (2 - 1) * 2)).
Proof.
  apply (list_posts_page_length three_posts 2 2 all latest 5000); int64_lia.
Defined.

Lemma pages_concat st page_size timeframe sort_by now n :
  1 <= page_size -> page_size <= int64_max ->
  (Z.of_nat n - 1) * page_size <= int64_max ->
  List.concat (map (page_items st page_size timeframe sort_by now) (pages n))
  = firstn (n * Z.to_nat page_size) (full_listing st timeframe sort_by now).
Proof.
  intros Hsize Hlimit. unfold pages. induction n as [| n IH]; intros Hn; [reflexivity |].
  rewrite seq_S, !map_app, concat_app, IH by nia. cbn [map List.concat Nat.add].
  rewrite page_items_eq by lia.
  replace (Z.to_nat (Z.of_nat (S n) - 1)) with n by lia.
  rewrite app_nil_r.
  replace (S n * Z.to_nat page_size)%nat
    with (n * Z.to_nat page_size + Z.to_nat page_size)%nat by lia.
  symmetry. apply firstn_plus.
Qed.

(** Whatever the pages, what a walk returns is a prefix of the full
    listing: a page whose integers do not fit in 8 bytes gives no items, and
    so does every later one. *)
Lemma pages_concat_prefix st page_size timeframe sort_by now n :
  1 <= page_size ->
  exists m,
    List.concat (map (page_items st page_size timeframe sort_by now) (pages n))
    = firstn m (full_listing st timeframe sort_by now).
Proof.
  intros Hsize. induction n as [| n [m IH]]; [exists 0%nat; reflexivity |].
  destruct (page_encodes (Z.of_nat (S n)) page_size) eqn:Henc.
  - apply page_encodes_spec in Henc; [| lia | assumption]. destruct Henc as [Hlimit Hskip].
    eexists. apply pages_concat; assumption.
  - exists m. unfold pages in *.
    rewrite seq_S, !map_app, concat_app, IH. cbn [map List.concat Nat.add].
    rewrite page_items_overflow by exact Henc. rewrite !app_nil_r. reflexivity.
Qed.

(** On a store of at most [2^63 - 1] posts a page whose [$skip] does not
    fit in 8 bytes lies past the end of the listing, where a page is empty
    anyway. *)
Lemma pages_concat_all st page_size timeframe sort_by now n :
  1 <= page_size -> page_size <= int64_max ->
  Z.of_nat (List.length (post st)) <= int64_max ->
  List.concat (map (page_items st page_size timeframe sort_by now) (pages n))
  = firstn (n * Z.to_nat page_size) (full_listing st timeframe sort_by now).
Proof.
  intros Hsize Hlimit Hstore.
  assert (Hfull : Z.of_nat (List.length (full_listing st timeframe sort_by now))
                  <= int64_max).
  { rewrite full_listing_length.
    pose proof (List.filter_length_le (filter_q timeframe now) (post st)). lia. }
  unfold pages. induction n as [| n IH]; [reflexivity |].
  rewrite seq_S, !map_app, concat_app, IH. cbn [map List.concat Nat.add].
  rewrite app_nil_r.
  destruct (page_encodes (Z.of_nat (S n)) page_size) eqn:Henc.
  - apply page_encodes_spec in Henc; [| lia | assumption]. destruct Henc as [_ Hskip].
    rewrite page_items_eq by (assumption || lia).
    replace (Z.to_nat (Z.of_nat (S n) - 1)) with n by lia.
    replace (S n * Z.to_nat page_size)%nat
      with (n * Z.to_nat page_size + Z.to_nat page_size)%nat by lia.
    symmetry. apply firstn_plus.
  - rewrite page_items_overflow by exact Henc. rewrite app_nil_r.
    assert (Hbeyond : int64_max < (Z.of_nat (S n) - 1) * page_size).
    { destruct (Z.lt_ge_cases int64_max ((Z.of_nat (S n) - 1) * page_size)) as [H | H];
        [exact H |].
      rewrite page_encodes_fits in Henc by (assumption || lia). discriminate Henc. }
    rewrite !firstn_all2; [reflexivity | nia | nia].
Qed.

(** X3. Walking the pages 1, 2, ..., n with one page size the route admits
    returns, end to end, the first [n * page_size] items of the full
    listing, each item once and in order; as soon as [n * page_size] reaches
    the length of the listing the walk returns the whole listing. The store
    holds at most [2^63 - 1] posts, so that the pages whose [$skip] the
    driver cannot encode, which give no items, lie past the end of the
    listing. No two posts share their [created_at], so that the order of
    the listing is the same on every call, however the store orders
    documents that compare equal. *)
Theorem pages_tile_listing st page_size timeframe sort_by now n :
  NoDup (map created_at (post st)) ->
  1 <= page_size <= 50 ->
  Z.of_nat (List.length (post st)) <= int64_max ->
  List.concat (map (page_items st page_size timeframe sort_by now) (pages n))
  = firstn (n * Z.to_nat page_size) (full_listing st timeframe sort_by now) /\
  ((List.length (full_listing st timeframe sort_by now) <= n * Z.to_nat page_size)%nat ->
   List.concat (map (page_items st page_size timeframe sort_by now) (pages n))
   = full_listing st timeframe sort_by now).
Proof.
  intros _ [Hsize Hmax] Hstore.
  assert (Hlimit : page_size <= int64_max) by (apply fits_int64_small; lia).
  split; [apply pages_concat_all; assumption |].
  intros Hlen. rewrite pages_concat_all by assumption. apply firstn_all2, Hlen.
Qed.

(** The three posts, one a page: pages 1 to 3 return the listing, newest
    first. *)
Lemma pages_tile_listing_witness :
  List.concat (map (page_items three_posts 1 all latest 5000) (pages 3))
  = firstn (3 * Z.to_nat 1) (full_listing three_posts all latest 5000) /\
  ((List.length (full_listing three_posts all latest 5000) <= 3 * Z.to_nat 1)%nat ->
   List.concat (map (page_items three_posts 1 all latest 5000) (pages 3))
   = full_listing three_posts all latest 5000).
Proof.
  apply (pages_tile_listing three_posts 1 all latest 5000 3).
  - simpl. repeat constructor; simpl; intuition discriminate.
  - lia.
  - vm_compute. discriminate.
Defined.

(** X4. At one instant the windows are nested: for a page within the
    declared bounds whose [(page-1)*page_size] is at most [2^63 - 1], the
    total of a week listing is at most the total of a month listing, which
    is at most the total of the listing of all posts. *)
Theorem totals_grow_with_window st page page_size sort_by now :
  1 <= page -> 1 <= page_size <= 50 -> (page - 1) * page_size <= int64_max ->
  exists rw rm ra,
    list_posts page page_size week sort_by now (Some st) = (inr rw, Some st) /\
    list_posts page page_size month sort_by now (Some st) = (inr rm, Some st) /\
    list_posts page page_size all sort_by now (Some st) = (inr ra, Some st) /\
    total rw <= total rm <= total ra.
Proof.
  intros Hpage [Hsize Hmax] Hskip. do 3 eexists.
  repeat (split; [apply list_posts_eval; auto using fits_int64_small with zarith |]).
  cbn [total].
  pose proof (filter_length_le (filter_q week now) (filter_q month now) (post st)) as Hwm.
  pose proof (filter_length_le (filter_q month now) (filter_q all now) (post st)) as Hma.
  split; apply Nat2Z.inj_le; [apply Hwm | apply Hma]; intros d; cbn;
    unfold q_created_gte, q_all, days; try reflexivity.
  intros Hd. apply Z.leb_le in Hd. apply Z.leb_le. lia.
Qed.

(** Ten days after the three posts, none is in the week, all three are in
    the month. *)
Lemma totals_grow_with_window_witness :
  exists rw rm ra,
    list_posts 1 8 week votes 864000000 (Some three_posts) = (inr rw, Some three_posts) /\
    list_posts 1 8 month votes 864000000 (Some three_posts) = (inr rm, Some three_posts) /\
    list_posts 1 8 all votes 864000000 (Some three_posts) = (inr ra, Some three_posts) /\
    total rw <= total rm <= total ra.
Proof.
  apply (totals_grow_with_window three_posts 1 8 votes 864000000); int64_lia.
Defined.

(* ================================================================== *)
(** * Further properties of the requests as a whole *)
(* ================================================================== *)

Lemma respond_fst_error {A} (wrap : A -> Response) (h : Handler A) db e :
  fst (respond wrap h db) = inl e -> fst (h db) = inl e.
Proof. unfold respond. destruct (fst (h db)); simpl; congruence. Qed.

Lemma create_post_error st payload now oid e :
  fst (create_post payload now oid (Some st)) = inl e ->
  snd (create_post payload now oid (Some st)) = Some st.
Proof.
  rewrite create_post_eval. destruct (existsb (q_id oid) (post st)); simpl;
    [reflexivity | discriminate].
Qed.

Lemma add_comment_error st payload now oid e :
  fst (add_comment payload now oid (Some st)) = inl e ->
  snd (add_comment payload now oid (Some st)) = Some st.
Proof.
  destruct (post_exists st (CommentCreate.post_id payload)) eqn:Hpost.
  - rewrite (add_comment_found st payload now oid Hpost).
    destruct (existsb (q_id oid) (comment st)); simpl; [reflexivity | discriminate].
  - destruct payload as [pid content author]. cbn [CommentCreate.post_id] in Hpost.
    rewrite (add_comment_not_found st pid content author now oid Hpost). reflexivity.
Qed.

Lemma toggle_vote_error st payload now oid e :
  fst (toggle_vote payload now oid (Some st)) = inl e ->
  snd (toggle_vote payload now oid (Some st)) = Some st.
Proof.
  destruct payload as [pid cid].
  destruct (post_exists st pid) eqn:Hpost.
  - destruct (List.find (q_vote pid cid) (vote st)) as [x |] eqn:Hfind.
    + rewrite (toggle_vote_delete st pid cid now oid x Hpost Hfind). discriminate.
    + destruct (existsb (q_id oid) (vote st)) eqn:Hfresh.
      * rewrite (toggle_vote_duplicate st pid cid now oid Hpost Hfind Hfresh). reflexivity.
      * rewrite (toggle_vote_insert st pid cid now oid Hpost Hfind Hfresh). discriminate.
  - rewrite (toggle_vote_not_found st pid cid now oid Hpost). reflexivity.
Qed.

(** X5. No request is half done: a request answered with an error, of
    whatever kind, leaves the database exactly as it was, and the three GET
    routes leave it as it was whatever they answer. *)
Theorem failed_request_writes_nothing r now oid db :
  (forall e, fst (app r now oid db) = inl e -> snd (app r now oid db) = db) /\
  (match r with
   | GET_root | GET_posts _ | GET_comments _ => snd (app r now oid db) = db
   | _ => True
   end).
Proof.
  destruct db as [st |]; [| split; [intros; apply app_unconfigured |
                                   destruct r; auto; apply app_unconfigured]].
  split.
  - intros e.
    destruct r as [| q | body | body | body | pid]; cbn [app].
    + discriminate.
    + destruct (validate_list_query q) as [errors | [[[pg ps] tf] sb]]; [reflexivity |].
      intros _. rewrite respond_snd. apply list_posts_reads.
    + destruct (validate_PostCreate body) as [errors | payload]; [reflexivity |].
      intros He. rewrite respond_snd.
      eapply create_post_error, respond_fst_error, He.
    + destruct (validate_CommentCreate body) as [errors | payload]; [reflexivity |].
      intros He. rewrite respond_snd.
      eapply add_comment_error, respond_fst_error, He.
    + destruct (validate_VoteToggle body) as [errors | payload]; [reflexivity |].
      intros He. rewrite respond_snd.
      eapply toggle_vote_error, respond_fst_error, He.
    + discriminate.
  - destruct r as [| q | body | body | body | pid]; cbn [app]; auto.
    destruct (validate_list_query q) as [errors | [[[pg ps] tf] sb]]; [reflexivity |].
    rewrite respond_snd. apply list_posts_reads.
Qed.

Lemma failed_request_writes_nothing_witness :
  snd (app (POST_vote_toggle
              (JObject [("post_id", JString "not-an-identifier");
                        ("client_id", JString "c1")]))
           3000 (mkObjectId "000000000003") (Some sample_store))
  = Some sample_store.
Proof.
  apply (failed_request_writes_nothing _ 3000 (mkObjectId "000000000003")
           (Some sample_store))
    with (e := HTTPException 404 "Post not found").
  reflexivity.
Defined.

(** X6. Without a configured database the liveness route still answers,
    and every other route fails, the input deciding how. A listing query
    within the declared bounds, a creation body whose declared fields have
    their declared types, and every request for the comments of a post are
    answered with the error 500 "Database not configured"; a listing query
    outside the bounds and a body with a required text missing or a field
    of another type are answered with a validation error that names at
    least one field. Nothing is stored. *)
Theorem unconfigured_database r now oid :
  snd (app r now oid None) = None /\
  match r with
  | GET_root => fst (app GET_root now oid None) = inr (Message "VibeHunt API running")
  | GET_posts q =>
      if valid_list_query q
      then fst (app (GET_posts q) now oid None) = inl not_configured
      else exists e errors,
             fst (app (GET_posts q) now oid None)
             = inl (RequestValidationError (e :: errors))
  | POST_posts body =>
      match field_text "title" body, field_text "description" body,
            field_is_optional_text "link" body, field_texts "tags" body,
            field_is_optional_text "author_name" body with
      | Some _, Some _, true, Some _, true =>
          fst (app (POST_posts body) now oid None) = inl not_configured
      | _, _, _, _, _ =>
          exists e errors,
            fst (app (POST_posts body) now oid None)
            = inl (RequestValidationError (e :: errors))
      end
  | POST_comments body =>
      match field_text "post_id" body, field_text "content" body,
            field_is_optional_text "author_name" body with
      | Some _, Some _, true =>
          fst (app (POST_comments body) now oid None) = inl not_configured
      | _, _, _ =>
          exists e errors,
            fst (app (POST_comments body) now oid None)
            = inl (RequestValidationError (e :: errors))
      end
  | POST_vote_toggle body =>
      match field_text "post_id" body, field_text "client_id" body with
      | Some _, Some _ =>
          fst (app (POST_vote_toggle body) now oid None) = inl not_configured
      | _, _ =>
          exists e errors,
            fst (app (POST_vote_toggle body) now oid None)
            = inl (RequestValidationError (e :: errors))
      end
  | GET_comments post_id =>
      fst (app (GET_comments post_id) now oid None) = inl not_configured
  end.
Proof.
  split; [apply app_unconfigured |].
  destruct r as [| q | body | body | body | pid].
  - reflexivity.
  - destruct (valid_list_query q) eqn:Hv.
    + destruct (validate_list_query_valid q Hv) as [[[[pg ps] tf] sb] Hq].
      cbn [app]. rewrite Hq. reflexivity.
    + destruct (validate_list_query_invalid q Hv) as [e [errors Hq]].
      exists e, errors. cbn [app]. rewrite Hq. reflexivity.
  - destruct body as [| b | z | s | l | o]; try (cbn; do 2 eexists; reflexivity).
    cbn [app field_text field_is_optional_text field_texts].
    unfold validate_PostCreate, required_str, optional_str, str_list.
    destruct (assoc "title" o) as [[| ? | ? | t | ? | ?] |];
      destruct (assoc "description" o) as [[| ? | ? | d | ? | ?] |];
      destruct (assoc "link" o) as [[| ? | ? | k | ? | ?] |];
      destruct (assoc "tags" o) as [[| ? | ? | ? | g | ?] |];
      try destruct (all_strings g);
      destruct (assoc "author_name" o) as [[| ? | ? | a | ? | ?] |];
      cbn; try reflexivity; do 2 eexists; reflexivity.
  - destruct body as [| b | z | s | l | o]; try (cbn; do 2 eexists; reflexivity).
    cbn [app field_text field_is_optional_text].
    unfold validate_CommentCreate, required_str, optional_str.
    destruct (assoc "post_id" o) as [[| ? | ? | p | ? | ?] |];
      destruct (assoc "content" o) as [[| ? | ? | c | ? | ?] |];
      destruct (assoc "author_name" o) as [[| ? | ? | a | ? | ?] |];
      cbn; try reflexivity; do 2 eexists; reflexivity.
  - destruct body as [| b | z | s | l | o]; try (cbn; do 2 eexists; reflexivity).
    cbn [app field_text].
    unfold validate_VoteToggle, required_str.
    destruct (assoc "post_id" o) as [[| ? | ? | p | ? | ?] |];
      destruct (assoc "client_id" o) as [[| ? | ? | c | ? | ?] |];
      cbn; try reflexivity; do 2 eexists; reflexivity.
  - reflexivity.
Qed.

Lemma remove_first_In {S} (q : Query S) l x : In x (remove_first q l) -> In x l.
Proof.
  induction l as [| y l IH]; simpl; [tauto |].
  destruct (q y); simpl; intuition.
Qed.

(** X7. Posts and comments are only ever appended: after any request the
    posts and the comments stored before are still there, unchanged and in
    the same order, followed by at most one new document; and every vote
    stored afterwards either was stored before or is the one new vote, at
    the end. Nothing is edited in place and only votes are removed. *)
Theorem posts_and_comments_append_only r now oid st :
  exists st',
    snd (app r now oid (Some st)) = Some st' /\
    (exists new, post st' = post st ++ new /\ (List.length new <= 1)%nat) /\
    (exists new, comment st' = comment st ++ new /\ (List.length new <= 1)%nat) /\
    (forall v, In v (vote st') -> In v (vote st) \/ vote st' = vote st ++ [v]).
Proof.
  destruct (app_step r now oid st) as [st' [Hst' Hstep]].
  exists st'. split; [exact Hst' |].
  destruct Hstep as [| p | c Hc | v Hpost Hfind Hfresh | q]; cbn [post comment vote].
  - repeat split; try (exists []; rewrite app_nil_r; split; [reflexivity | simpl; lia]).
    auto.
  - repeat split; try (exists []; rewrite app_nil_r; split; [reflexivity | simpl; lia]);
      auto.
    exists [p]. split; [reflexivity | simpl; lia].
  - repeat split; try (exists []; rewrite app_nil_r; split; [reflexivity | simpl; lia]);
      auto.
    exists [c]. split; [reflexivity | simpl; lia].
  - repeat split; try (exists []; rewrite app_nil_r; split; [reflexivity | simpl; lia]).
    intros x Hx. apply in_app_or in Hx. destruct Hx as [Hx | [<- | []]]; auto.
  - repeat split; try (exists []; rewrite app_nil_r; split; [reflexivity | simpl; lia]).
    intros x Hx. left. eapply remove_first_In, Hx.
Qed.

(** ** Identifiers stay unique *)

Lemma oid_eqb_eq a b : oid_eqb a b = true <-> a = b.
Proof.
  unfold oid_eqb. rewrite String.eqb_eq.
  destruct a as [x], b as [y]; simpl. split; congruence.
Qed.

Lemma fresh_id_not_in {S} (l : list (Doc S)) oid :
  existsb (q_id oid) l = false -> ~ In oid (map _id l).
Proof.
  intros Hfresh Hin. apply in_map_iff in Hin. destruct Hin as [d [Hd Hin]].
  assert (Hex : existsb (q_id oid) l = true).
  { apply existsb_exists. exists d. split; [exact Hin |].
    unfold q_id. apply oid_eqb_eq, Hd. }
  congruence.
Qed.

Lemma NoDup_ids_append {S} (l : list (Doc S)) d :
  NoDup (map _id l) -> existsb (q_id (_id d)) l = false -> NoDup (map _id (l ++ [d])).
Proof.
  intros Hl Hfresh. rewrite map_app. cbn [map].
  apply NoDup_app; [exact Hl | repeat constructor; simpl; tauto |].
  intros x Hx [<- | []]. exact (fresh_id_not_in l _ Hfresh Hx).
Qed.

Lemma NoDup_ids_remove_first {S} (q : Query S) l :
  NoDup (map _id l) -> NoDup (map _id (remove_first q l)).
Proof.
  induction l as [| d l IH]; simpl; intros Hl; [constructor |].
  inversion Hl as [| ? ? Hd Hl']; subst.
  destruct (q d); [exact Hl' |].
  cbn [map]. constructor; [| apply IH, Hl'].
  intros Hin. apply Hd. apply in_map_iff in Hin. destruct Hin as [x [Hx Hin]].
  apply in_map_iff. exists x. split; [exact Hx | eapply remove_first_In, Hin].
Qed.

Lemma create_post_ids_unique st payload now oid st' :
  ids_unique st -> snd (create_post payload now oid (Some st)) = Some st' -> ids_unique st'.
Proof.
  intros [Hp [Hc Hv]]. rewrite create_post_eval.
  destruct (existsb (q_id oid) (post st)) eqn:Hfresh; cbn [snd];
    intros Hst; injection Hst as <-; repeat split; cbn [post comment vote]; auto.
  apply NoDup_ids_append; assumption.
Qed.

Lemma add_comment_ids_unique st payload now oid st' :
  ids_unique st -> snd (add_comment payload now oid (Some st)) = Some st' -> ids_unique st'.
Proof.
  intros [Hp [Hc Hv]].
  destruct (post_exists st (CommentCreate.post_id payload)) eqn:Hpost.
  - rewrite (add_comment_found st payload now oid Hpost).
    destruct (existsb (q_id oid) (comment st)) eqn:Hfresh; cbn [snd];
      intros Hst; injection Hst as <-; repeat split; cbn [post comment vote]; auto.
    apply NoDup_ids_append; assumption.
  - destruct payload as [pid content author]. cbn [CommentCreate.post_id] in Hpost.
    rewrite (add_comment_not_found st pid content author now oid Hpost).
    cbn [snd]. intros Hst; injection Hst as <-. repeat split; assumption.
Qed.

Lemma toggle_vote_ids_unique st payload now oid st' :
  ids_unique st -> snd (toggle_vote payload now oid (Some st)) = Some st' -> ids_unique st'.
Proof.
  intros [Hp [Hc Hv]]. destruct payload as [pid cid].
  destruct (post_exists st pid) eqn:Hpost.
  - destruct (List.find (q_vote pid cid) (vote st)) as [x |] eqn:Hfind.
    + rewrite (toggle_vote_delete st pid cid now oid x Hpost Hfind).
      cbn [snd]. intros Hst; injection Hst as <-.
      repeat split; cbn [post comment vote]; auto.
      apply NoDup_ids_remove_first, Hv.
    + destruct (existsb (q_id oid) (vote st)) eqn:Hfresh.
      * rewrite (toggle_vote_duplicate st pid cid now oid Hpost Hfind Hfresh).
        cbn [snd]. intros Hst; injection Hst as <-. repeat split; assumption.
      * rewrite (toggle_vote_insert st pid cid now oid Hpost Hfind Hfresh).
        cbn [snd]. intros Hst; injection Hst as <-.
        repeat split; cbn [post comment vote]; auto.
        apply (NoDup_ids_append (vote st) (mkDoc oid (Vote.mk pid cid) now now));
          assumption.
  - rewrite (toggle_vote_not_found st pid cid now oid Hpost).
    cbn [snd]. intros Hst; injection Hst as <-. repeat split; assumption.
Qed.

(** X8. Whatever identifier the driver generates, no request ever stores
    two documents of one collection under the same [_id]: if the
    identifiers of each collection are pairwise distinct before a request,
    they are after it. *)
Theorem app_preserves_ids_unique r now oid st :
  ids_unique st ->
  exists st', snd (app r now oid (Some st)) = Some st' /\ ids_unique st'.
Proof.
  intros Hinv. destruct (app_step r now oid st) as [st' [Hst' _]].
  exists st'. split; [exact Hst' |].
  destruct r as [| q | body | body | body | pid]; cbn [app] in Hst'.
  - injection Hst' as <-. exact Hinv.
  - destruct (validate_list_query q) as [errors | [[[pg ps] tf] sb]].
    + injection Hst' as <-. exact Hinv.
    + rewrite respond_snd, list_posts_reads in Hst'. injection Hst' as <-. exact Hinv.
  - destruct (validate_PostCreate body) as [errors | payload].
    + injection Hst' as <-. exact Hinv.
    + rewrite respond_snd in Hst'. eapply create_post_ids_unique; eassumption.
  - destruct (validate_CommentCreate body) as [errors | payload].
    + injection Hst' as <-. exact Hinv.
    + rewrite respond_snd in Hst'. eapply add_comment_ids_unique; eassumption.
  - destruct (validate_VoteToggle body) as [errors | payload].
    + injection Hst' as <-. exact Hinv.
    + rewrite respond_snd in Hst'. eapply toggle_vote_ids_unique; eassumption.
  - injection Hst' as <-. exact Hinv.
Qed.

Lemma app_preserves_ids_unique_witness :
  exists st',
    snd (app (POST_posts empty_texts_body) 7000 (mkObjectId "000000000001")
             (Some sample_store)) = Some st' /\
    ids_unique st'.
Proof.
  apply (app_preserves_ids_unique (POST_posts empty_texts_body) 7000
           (mkObjectId "000000000001") sample_store).
  repeat split; simpl; repeat constructor; simpl; tauto.
Defined.

(** ** What a toggle does to the live votes *)

Lemma filter_In_length {A} (q : A -> bool) l e :
  In e l -> q e = true -> (1 <= List.length (filter q l))%nat.
Proof.
  induction l as [| d l IH]; simpl; [tauto |].
  intros [-> | Hin] He.
  - rewrite He. simpl. lia.
  - destruct (q d); simpl; [lia | auto].
Qed.

(** With distinct identifiers, deleting by the identifier of a stored
    document removes that document and no other. *)
Lemma remove_first_by_id {S} (q : Query S) l e :
  NoDup (map _id l) -> In e l ->
  List.length (filter q (remove_first (q_id (_id e)) l))
  = (List.length (filter q l) - (if q e then 1 else 0))%nat.
Proof.
  induction l as [| d l IH]; simpl; [tauto |].
  intros Hnd Hin. inversion Hnd as [| ? ? Hd Hl]; subst.
  unfold q_id at 1. destruct (oid_eqb (_id d) (_id e)) eqn:Hid.
  - apply oid_eqb_eq in Hid.
    assert (He : e = d).
    { destruct Hin as [-> | Hin]; [reflexivity |].
      exfalso. apply Hd. rewrite Hid. apply in_map, Hin. }
    subst e. destruct (q d); simpl; lia.
  - assert (Hin' : In e l).
    { destruct Hin as [-> | Hin]; [| exact Hin].
      rewrite oid_eqb_refl in Hid. discriminate. }
    specialize (IH Hl Hin'). simpl.
    destruct (q e) eqn:He.
    + pose proof (filter_In_length q l e Hin' He).
      destruct (q d); simpl; lia.
    + destruct (q d); simpl; lia.
Qed.

(** X9. With distinct vote identifiers, a toggle for an existing post
    changes the live votes of its own pair by exactly one and of no other
    pair: a pair without a live vote gets one (status "voted"), a pair
    with live votes loses one (status "unvoted"), and for every other pair
    [(post_id, client_id)] the number of live votes is what it was. The
    identifier generated for a new vote is one no stored vote has. *)
Theorem toggle_vote_changes_own_pair st pid cid now oid :
  post_exists st pid = true ->
  NoDup (map _id (vote st)) ->
  existsb (q_id oid) (vote st) = false ->
  exists r st',
    toggle_vote (VoteToggle.mk pid cid) now oid (Some st) = (inr r, Some st') /\
    status r = (if (live_votes st pid cid =? 0)%nat then "voted" else "unvoted") /\
    live_votes st' pid cid
    = (if (live_votes st pid cid =? 0)%nat then 1 else live_votes st pid cid - 1)%nat /\
    forall p c, q_vote p c (mkDoc oid (Vote.mk pid cid) now now) = false ->
                live_votes st' p c = live_votes st p c.
Proof.
  intros Hpost Hnd Hfresh. unfold live_votes.
  destruct (List.find (q_vote pid cid) (vote st)) as [e |] eqn:Hfind.
  - rewrite (toggle_vote_delete st pid cid now oid e Hpost Hfind).
    destruct (find_some _ _ Hfind) as [Hin He].
    do 2 eexists. split; [reflexivity |]. cbn [status vote].
    pose proof (filter_In_length _ _ _ Hin He) as Hpos.
    destruct (Nat.eqb_spec (List.length (filter (q_vote pid cid) (vote st))) 0) as [H0 | _];
      [lia |].
    split; [reflexivity |]. split.
    + rewrite (remove_first_by_id _ _ e Hnd Hin), He. reflexivity.
    + intros p c Hpc. rewrite (remove_first_by_id _ _ e Hnd Hin).
      assert (Hpe : q_vote p c e = false).
      { apply q_vote_true in He. destruct He as [Hp Hc].
        unfold q_vote in *. cbn [body Vote.post_id Vote.client_id] in Hpc.
        rewrite Hp, Hc. exact Hpc. }
      rewrite Hpe. lia.
  - rewrite (toggle_vote_insert st pid cid now oid Hpost Hfind Hfresh).
    do 2 eexists. split; [reflexivity |]. cbn [status vote].
    rewrite (find_none_filter _ _ Hfind). cbn [List.length Nat.eqb].
    split; [reflexivity |]. split.
    + assert (Hv : q_vote pid cid (mkDoc oid (Vote.mk pid cid) now now) = true)
        by apply (q_vote_refl (mkDoc oid (Vote.mk pid cid) now now)).
      rewrite filter_app, (find_none_filter _ _ Hfind). cbn [filter List.app].
      rewrite Hv. reflexivity.
    + intros p c Hpc. rewrite filter_app, length_app. cbn [filter].
      rewrite Hpc. simpl. lia.
Qed.

Lemma toggle_vote_changes_own_pair_witness :
  exists r st',
    toggle_vote (VoteToggle.mk (str (_id sample_post)) "c1") 3000
                (mkObjectId "000000000003") (Some sample_store)
    = (inr r, Some st') /\
    status r
    = (if (live_votes sample_store (str (_id sample_post)) "c1" =? 0)%nat
       then "voted" else "unvoted") /\
    live_votes st' (str (_id sample_post)) "c1"
    = (if (live_votes sample_store (str (_id sample_post)) "c1" =? 0)%nat
       then 1 else live_votes sample_store (str (_id sample_post)) "c1" - 1)%nat /\
    forall p c,
      q_vote p c (mkDoc (mkObjectId "000000000003")
                        (Vote.mk (str (_id sample_post)) "c1") 3000 3000) = false ->
      live_votes st' p c = live_votes sample_store p c.
Proof.
  apply (toggle_vote_changes_own_pair sample_store (str (_id sample_post)) "c1" 3000
           (mkObjectId "000000000003")).
  - reflexivity.
  - simpl. repeat constructor. simpl. tauto.
  - reflexivity.
Defined.

(** ** References to posts *)

Lemma store_step_votes_refer st st' :
  store_step st st' -> votes_refer st -> votes_refer st'.
Proof.
  intros Hstep Hinv v Hv.
  assert (Hold : In v (vote st) -> post_exists st' (Vote.post_id (body v)) = true).
  { intros Hin. eapply post_exists_step; [exact Hstep | apply Hinv, Hin]. }
  destruct Hstep as [| p | c Hc | x Hpost Hfind Hfresh | q]; cbn [vote] in Hv; auto.
  - apply in_app_or in Hv. destruct Hv as [Hv | [<- | []]]; auto.
  - apply Hold. eapply remove_first_In, Hv.
Qed.

(** X10. References are never left dangling by a request: if every stored
    comment and every stored vote refers to an existing post before a
    request, the same holds after it. *)
Theorem app_preserves_references r now oid st :
  comments_refer st -> votes_refer st ->
  exists st',
    snd (app r now oid (Some st)) = Some st' /\ comments_refer st' /\ votes_refer st'.
Proof.
  intros Hc Hv. destruct (app_step r now oid st) as [st' [Hst' Hstep]].
  exists st'. split; [exact Hst' |]. split.
  - eapply store_step_comments_refer; eassumption.
  - eapply store_step_votes_refer; eassumption.
Qed.

Lemma app_preserves_references_witness :
  exists st',
    snd (app (POST_comments
                (JObject [("post_id", JString (str (_id sample_post)));
                          ("content", JString "Nice")]))
             3000 (mkObjectId "000000000003") (Some sample_store)) = Some st' /\
    comments_refer st' /\ votes_refer st'.
Proof.
  apply (app_preserves_references _ 3000 (mkObjectId "000000000003") sample_store).
  - intros c Hc. simpl in Hc. destruct Hc.
  - intros v Hv. simpl in Hv. destruct Hv as [<- | []]. reflexivity.
Defined.

(** ** Creating, then reading back *)

(** X11. The text [create_post] returns is a working reference: for a
    12-byte identifier not in use, the call returns the text of the
    identifier, that text resolved to no post before the call and resolves
    to a post after it, and every text that resolved before still does. *)
Theorem created_post_resolves st payload now oid :
  String.length (binary oid) = 12%nat ->
  existsb (q_id oid) (post st) = false ->
  exists st',
    create_post payload now oid (Some st) = (inr (str oid), Some st') /\
    post_exists st (str oid) = false /\
    post_exists st' (str oid) = true /\
    forall pid, post_exists st pid = true -> post_exists st' pid = true.
Proof.
  intros Hlen Hfresh. rewrite create_post_eval, Hfresh.
  eexists. split; [reflexivity |].
  unfold post_exists. rewrite (ObjectId_of_str_str oid Hlen). cbn [post].
  split; [exact Hfresh |]. split.
  - rewrite existsb_app. cbn [existsb _id]. rewrite oid_eqb_refl.
    apply orb_true_iff. right. reflexivity.
  - intros pid. destruct (ObjectId_of_str pid) as [o |]; [| discriminate].
    intros Hpid. rewrite existsb_app. fold (@q_id Post.t o).
    unfold q_id in *. rewrite Hpid. reflexivity.
Qed.

Lemma created_post_resolves_witness :
  exists st',
    create_post (PostCreate.mk "X" "Y" None [] None) 7000 (mkObjectId "000000000009")
                (Some sample_store)
    = (inr (str (mkObjectId "000000000009")), Some st') /\
    post_exists sample_store (str (mkObjectId "000000000009")) = false /\
    post_exists st' (str (mkObjectId "000000000009")) = true /\
    forall pid, post_exists sample_store pid = true -> post_exists st' pid = true.
Proof.
  apply (created_post_resolves sample_store (PostCreate.mk "X" "Y" None [] None) 7000
           (mkObjectId "000000000009")); reflexivity.
Defined.

(** X12. A comment that was added is listed: after [add_comment] succeeds
    for a text [post_id], [list_comments] for that text returns one item
    more than before, namely the items it returned before and one new item
    that carries the returned identifier and the fields of the request; the
    lists of every other [post_id] are what they were. *)
Theorem added_comment_is_listed st payload now oid :
  post_exists st (CommentCreate.post_id payload) = true ->
  existsb (q_id oid) (comment st) = false ->
  exists st' before after new,
    add_comment payload now oid (Some st) = (inr (str oid), Some st') /\
    list_comments (CommentCreate.post_id payload) (Some st) = (inr before, Some st) /\
    list_comments (CommentCreate.post_id payload) (Some st') = (inr after, Some st') /\
    List.length after = S (List.length before) /\
    (forall x, In x after <-> In x before \/ x = new) /\
    id new = str oid /\
    fields new = CommentSchema payload /\
    forall other,
      other <> CommentCreate.post_id payload ->
      fst (list_comments other (Some st')) = fst (list_comments other (Some st)).
Proof.
  intros Hpost Hfresh. rewrite (add_comment_found st payload now oid Hpost), Hfresh.
  do 3 eexists. exists (to_str_id (mkDoc oid (CommentSchema payload) now now)).
  split; [reflexivity |].
  rewrite !list_comments_eval. split; [reflexivity |]. split; [reflexivity |].
  cbn [comment].
  assert (Hnew : q_comment_post (CommentCreate.post_id payload)
                   (mkDoc oid (CommentSchema payload) now now) = true).
  { unfold q_comment_post. cbn [body CommentSchema Comment.post_id].
    apply String.eqb_refl. }
  rewrite filter_app, map_app. cbn [filter]. rewrite Hnew. cbn [map].
  split; [rewrite length_app; simpl; lia |]. split.
  { intros x. rewrite in_app_iff. cbn [In]. intuition. }
  split; [reflexivity |]. split; [reflexivity |].
  intros other Hother. rewrite list_comments_eval. cbn [fst comment].
  rewrite filter_app. cbn [filter].
  unfold q_comment_post at 2. cbn [body CommentSchema Comment.post_id].
  destruct (String.eqb_spec (CommentCreate.post_id payload) other) as [Heq | _];
    [congruence |].
  rewrite app_nil_r. reflexivity.
Qed.

Lemma added_comment_is_listed_witness :
  exists st' before after new,
    add_comment (CommentCreate.mk (str (_id sample_post)) "Nice" None) 3000
                (mkObjectId "000000000003") (Some sample_store)
    = (inr (str (mkObjectId "000000000003")), Some st') /\
    list_comments (str (_id sample_post)) (Some sample_store)
    = (inr before, Some sample_store) /\
    list_comments (str (_id sample_post)) (Some st') = (inr after, Some st') /\
    List.length after = S (List.length before) /\
    (forall x, In x after <-> In x before \/ x = new) /\
    id new = str (mkObjectId "000000000003") /\
    fields new = CommentSchema (CommentCreate.mk (str (_id sample_post)) "Nice" None) /\
    forall other,
      other <> str (_id sample_post) ->
      fst (list_comments other (Some st')) = fst (list_comments other (Some sample_store)).
Proof.
  apply (added_comment_is_listed sample_store
           (CommentCreate.mk (str (_id sample_post)) "Nice" None) 3000
           (mkObjectId "000000000003")); reflexivity.
Defined.

(** X13. A post that was created shows in the listing: after [create_post]
    succeeds, every listing whose window holds the stored [created_at] of
    the new post, asked for a page within the declared bounds whose
    [(page-1)*page_size] is at most [2^63 - 1], counts one post more than
    before, and its full listing has an item with the returned identifier,
    the fields of the request and both counts zero. *)
Theorem created_post_is_listed st payload now oid timeframe sort_by now' page page_size :
  existsb (q_id oid) (post st) = false ->
  in_window timeframe now' (mkDoc oid (PostSchema payload) now now) = true ->
  1 <= page -> 1 <= page_size <= 50 -> (page - 1) * page_size <= int64_max ->
  exists st' r r' item,
    create_post payload now oid (Some st) = (inr (str oid), Some st') /\
    list_posts page page_size timeframe sort_by now' (Some st) = (inr r, Some st) /\
    list_posts page page_size timeframe sort_by now' (Some st') = (inr r', Some st') /\
    total r' = total r + 1 /\
    In item (full_listing st' timeframe sort_by now') /\
    id (item_doc item) = str oid /\
    fields (item_doc item) = PostSchema payload /\
    votes_count item = Some 0 /\ comments_count item = Some 0.
Proof.
  intros Hfresh Hwin Hpage [Hsize Hmax] Hskip.
  rewrite create_post_eval, Hfresh.
  set (d := mkDoc oid (PostSchema payload) now now) in *.
  set (st' := {| post := post st ++ [d]; comment := comment st; vote := vote st |}).
  assert (Hin : In (to_str_id d) (map item_doc (full_listing st' timeframe sort_by now'))).
  { eapply Permutation_in; [apply full_listing_perm |].
    apply in_map, filter_In. split; [| exact Hwin].
    cbn [post st']. apply in_or_app. right. left. reflexivity. }
  apply in_map_iff in Hin. destruct Hin as [item [Hdoc Hitem]].
  exists st'. do 2 eexists. exists item.
  split; [reflexivity |].
  split; [apply list_posts_eval; auto using fits_int64_small with zarith |].
  split; [apply list_posts_eval; auto using fits_int64_small with zarith |].
  cbn [total]. split.
  - cbn [post st']. rewrite filter_app, length_app. cbn [filter].
    rewrite filter_q_in_window, Hwin. simpl. lia.
  - split; [exact Hitem |]. rewrite Hdoc.
    split; [reflexivity |]. split; [reflexivity |].
    eapply full_listing_counts, Hitem.
Qed.

Lemma created_post_is_listed_witness :
  exists st' r r' item,
    create_post (PostCreate.mk "X" "Y" None [] None) 7000 (mkObjectId "000000000009")
                (Some sample_store)
    = (inr (str (mkObjectId "000000000009")), Some st') /\
    list_posts 1 8 week latest 8000 (Some sample_store) = (inr r, Some sample_store) /\
    list_posts 1 8 week latest 8000 (Some st') = (inr r', Some st') /\
    total r' = total r + 1 /\
    In item (full_listing st' week latest 8000) /\
    id (item_doc item) = str (mkObjectId "000000000009") /\
    fields (item_doc item) = PostSchema (PostCreate.mk "X" "Y" None [] None) /\
    votes_count item = Some 0 /\ comments_count item = Some 0.
Proof.
  apply (created_post_is_listed sample_store (PostCreate.mk "X" "Y" None [] None) 7000
           (mkObjectId "000000000009") week latest 8000 1 8);
    reflexivity || int64_lia.
Defined.

(** ** Identifiers are read without regard to letter case *)

Lemma to_upper_ascii_hex c :
  isspace (to_upper_ascii c) = isspace c /\
  hex_value (to_upper_ascii c) = hex_value c.
Proof.
  destruct c as [[] [] [] [] [] [] [] []]; split; reflexivity.
Qed.

Lemma to_upper_length s : String.length (to_upper s) = String.length s.
Proof. induction s as [| c s IH]; simpl; congruence. Qed.

Lemma fromhex_to_upper_bounded n s :
  (String.length s <= n)%nat -> fromhex (to_upper s) = fromhex s.
Proof.
  revert s. induction n as [| n IH]; intros s Hn.
  - destruct s; [reflexivity | simpl in Hn; lia].
  - destruct s as [| c s]; [reflexivity |].
    cbn [to_upper fromhex].
    destruct (to_upper_ascii_hex c) as [-> ->].
    destruct (isspace c).
    + apply IH. simpl in Hn. lia.
    + destruct (hex_value c); [| reflexivity].
      destruct s as [| d s]; [reflexivity |].
      cbn [to_upper].
      destruct (to_upper_ascii_hex d) as [_ ->].
      destruct (hex_value d); [| reflexivity].
      rewrite IH by (simpl in Hn; lia). reflexivity.
Qed.

Lemma ObjectId_of_str_to_upper s : ObjectId_of_str (to_upper s) = ObjectId_of_str s.
Proof.
  unfold ObjectId_of_str.
  rewrite to_upper_length, (fromhex_to_upper_bounded (String.length s)) by lia.
  reflexivity.
Qed.

(** X14. Votes are keyed by the text the client sent, not by the post it
    resolves to. The upper-case spelling of a text resolves to the same
    post, so when it differs from the text (the identifier has a letter),
    toggling with one spelling and then with the other reports "voted"
    twice: the second call does not undo the first, and the same client
    holds two live votes on one post, one under each spelling. *)
Theorem votes_are_keyed_by_text st pid cid now1 oid1 now2 oid2 :
  post_exists st pid = true ->
  to_upper pid <> pid ->
  live_votes st pid cid = 0%nat ->
  live_votes st (to_upper pid) cid = 0%nat ->
  existsb (q_id oid1) (vote st) = false ->
  existsb (q_id oid2) (vote st) = false ->
  oid_eqb oid1 oid2 = false ->
  post_exists st (to_upper pid) = true /\
  exists st1 st2,
    toggle_vote (VoteToggle.mk pid cid) now1 oid1 (Some st)
    = (inr (mkVoteResponse "voted" (Some (str oid1))), Some st1) /\
    toggle_vote (VoteToggle.mk (to_upper pid) cid) now2 oid2 (Some st1)
    = (inr (mkVoteResponse "voted" (Some (str oid2))), Some st2) /\
    live_votes st2 pid cid = 1%nat /\
    live_votes st2 (to_upper pid) cid = 1%nat.
Proof.
  intros Hpost Hcase Hlive Hlive' Hfresh1 Hfresh2 Hdiff.
  assert (Hpost' : post_exists st (to_upper pid) = true).
  { unfold post_exists in *. rewrite ObjectId_of_str_to_upper. exact Hpost. }
  split; [exact Hpost' |].
  assert (Hnil : filter (q_vote pid cid) (vote st) = [])
    by (apply length_zero_iff_nil; exact Hlive).
  assert (Hnil' : filter (q_vote (to_upper pid) cid) (vote st) = [])
    by (apply length_zero_iff_nil; exact Hlive').
  set (v1 := mkDoc oid1 (Vote.mk pid cid) now1 now1).
  set (v2 := mkDoc oid2 (Vote.mk (to_upper pid) cid) now2 now2).
  assert (H12 : q_vote (to_upper pid) cid v1 = false).
  { unfold q_vote. cbn [body v1 Vote.post_id].
    destruct (String.eqb_spec pid (to_upper pid)) as [Heq | _]; [congruence | reflexivity]. }
  assert (H21 : q_vote pid cid v2 = false).
  { unfold q_vote. cbn [body v2 Vote.post_id].
    destruct (String.eqb_spec (to_upper pid) pid) as [Heq | _]; [congruence | reflexivity]. }
  assert (H11 : q_vote pid cid v1 = true) by apply (q_vote_refl v1).
  assert (H22 : q_vote (to_upper pid) cid v2 = true) by apply (q_vote_refl v2).
  set (st1 := {| post := post st; comment := comment st; vote := vote st ++ [v1] |}).
  exists st1, {| post := post st; comment := comment st; vote := (vote st ++ [v1]) ++ [v2] |}.
  split; [apply toggle_vote_insert; auto using find_filter_nil |].
  split.
  - apply (toggle_vote_insert st1 (to_upper pid) cid now2 oid2).
    + exact Hpost'.
    + apply find_filter_nil. cbn [vote st1]. rewrite filter_app, Hnil'. cbn [filter].
      rewrite H12. reflexivity.
    + cbn [vote st1]. rewrite existsb_app, Hfresh2. cbn [existsb].
      unfold q_id. cbn [_id v1]. rewrite Hdiff. reflexivity.
  - unfold live_votes. cbn [vote]. rewrite !filter_app, Hnil, Hnil'. cbn [filter].
    rewrite H11, H12, H21, H22. split; reflexivity.
Qed.

Lemma votes_are_keyed_by_text_witness :
  post_exists
    {| post := [mkDoc (mkObjectId "00000000000j") (Post.mk "X" "Y" None [] None) 1 1];
       comment := []; vote := [] |}
    (to_upper "30303030303030303030306a") = true /\
  exists st1 st2,
    toggle_vote (VoteToggle.mk "30303030303030303030306a" "c1") 10 (mkObjectId "00000000000A")
      (Some {| post := [mkDoc (mkObjectId "00000000000j") (Post.mk "X" "Y" None [] None) 1 1];
               comment := []; vote := [] |})
    = (inr (mkVoteResponse "voted" (Some (str (mkObjectId "00000000000A")))), Some st1) /\
    toggle_vote (VoteToggle.mk (to_upper "30303030303030303030306a") "c1") 20
                (mkObjectId "00000000000B") (Some st1)
    = (inr (mkVoteResponse "voted" (Some (str (mkObjectId "00000000000B")))), Some st2) /\
    live_votes st2 "30303030303030303030306a" "c1" = 1%nat /\
    live_votes st2 (to_upper "30303030303030303030306a") "c1" = 1%nat.
Proof.
  apply (votes_are_keyed_by_text
           {| post := [mkDoc (mkObjectId "00000000000j") (Post.mk "X" "Y" None [] None) 1 1];
              comment := []; vote := [] |}
           "30303030303030303030306a" "c1" 10 (mkObjectId "00000000000A")
           20 (mkObjectId "00000000000B"));
    try reflexivity.
  vm_compute. discriminate.
Defined.

(** ** Bodies of the comment and vote routes *)

(** X15. The comment and vote routes read only the declared fields of the
    body. [POST /api/vote/toggle] runs [toggle_vote] on the two texts held
    under [post_id] and [client_id], whatever else the body holds;
    [POST /api/comments] runs [add_comment] on the texts under [post_id] and
    [content], with the text under [author_name] if there is one, when
    [author_name] is absent, null or a text. In every other
    case the request is answered with a validation error before the post is
    looked up and before the database is looked at, so a malformed body for
    an unknown post gets the validation error, not the 404. *)
Theorem comment_and_vote_bodies body now oid db :
  match field_text "post_id" body, field_text "content" body,
        field_is_optional_text "author_name" body with
  | Some p, Some c, true =>
      app (POST_comments body) now oid db
      = respond Created
          (add_comment (CommentCreate.mk p c (field_text "author_name" body)) now oid) db
  | _, _, _ =>
      exists errors,
        app (POST_comments body) now oid db = (inl (RequestValidationError errors), db)
  end /\
  match field_text "post_id" body, field_text "client_id" body with
  | Some p, Some c =>
      app (POST_vote_toggle body) now oid db
      = respond Toggled (toggle_vote (VoteToggle.mk p c) now oid) db
  | _, _ =>
      exists errors,
        app (POST_vote_toggle body) now oid db = (inl (RequestValidationError errors), db)
  end.
Proof.
  destruct body as [| b | z | s | l | o];
    try (split; cbn; eexists; reflexivity).
  cbn [app field_text field_is_optional_text].
  unfold validate_CommentCreate, validate_VoteToggle, required_str, optional_str.
  split.
  - destruct (assoc "post_id" o) as [[| ? | ? | p | ? | ?] |];
      destruct (assoc "content" o) as [[| ? | ? | c | ? | ?] |];
      destruct (assoc "author_name" o) as [[| ? | ? | a | ? | ?] |];
      cbn; try reflexivity; eexists; reflexivity.
  - destruct (assoc "post_id" o) as [[| ? | ? | p | ? | ?] |];
      destruct (assoc "client_id" o) as [[| ? | ? | c | ? | ?] |];
      cbn; try reflexivity; eexists; reflexivity.
Qed.

(* ================================================================== *)
(** * Seeding, [seed_demo] *)
(* ================================================================== *)

Lemma keeps_posts_ret {A} (a : A) : keeps_posts (ret a).
Proof. intros st H. exact H. Qed.

Lemma keeps_posts_bind {A B} (m : M A) (k : A -> M B) :
  keeps_posts m -> (forall a, keeps_posts (k a)) -> keeps_posts (bind m k).
Proof.
  intros Hm Hk st Hst. unfold bind. specialize (Hm st Hst).
  destruct (m st) as [[e | a] st1]; cbn [snd] in *; [exact Hm |].
  apply Hk, Hm.
Qed.

Lemma keeps_posts_insert_one {S} (c : Collection S) d :
  (forall st l, post st <> [] -> post (set_docs c (docs c st ++ l) st) <> []) ->
  keeps_posts (insert_one c d).
Proof.
  intros Hc st Hst. unfold insert_one.
  destruct (existsb (q_id (_id d)) (docs c st)); cbn [snd]; [exact Hst |].
  apply Hc, Hst.
Qed.

Lemma keeps_posts_insert_each {S} (c : Collection S) ds :
  (forall st l, post st <> [] -> post (set_docs c (docs c st ++ l) st) <> []) ->
  keeps_posts (insert_each c ds).
Proof.
  intros Hc. induction ds as [| d ds IH]; cbn [insert_each].
  - apply keeps_posts_ret.
  - apply keeps_posts_bind; [apply keeps_posts_insert_one, Hc |].
    intros a. apply keeps_posts_bind; [exact IH |].
    intros b. apply keeps_posts_ret.
Qed.

Lemma keeps_posts_insert_many {S} (c : Collection S) ds :
  (forall st l, post st <> [] -> post (set_docs c (docs c st ++ l) st) <> []) ->
  keeps_posts (insert_many c ds).
Proof.
  intros Hc. destruct ds as [| d ds]; [intros st H; exact H |].
  apply keeps_posts_insert_each, Hc.
Qed.

Lemma db_post_grows st l :
  post st <> [] -> post (set_docs db_post (docs db_post st ++ l) st) <> [].
Proof.
  cbn. destruct (post st); [congruence | discriminate].
Qed.

Lemma db_vote_keeps st l :
  post st <> [] -> post (set_docs db_vote (docs db_vote st ++ l) st) <> [].
Proof. intros H. exact H. Qed.

Lemma db_comment_keeps st l :
  post st <> [] -> post (set_docs db_comment (docs db_comment st ++ l) st) <> [].
Proof. intros H. exact H. Qed.

Lemma makes_posts_bind {A B} (m : M A) (k : A -> M B) :
  makes_posts m -> (forall a, keeps_posts (k a)) -> makes_posts (bind m k).
Proof.
  intros Hm Hk st. unfold bind. specialize (Hm st).
  destruct (m st) as [[e | a] st1]; cbn [snd] in *; [exact Hm |].
  apply Hk, Hm.
Qed.

Lemma makes_posts_insert_one d : makes_posts (insert_one db_post d).
Proof.
  intros st. unfold insert_one. cbn [docs db_post].
  destruct (existsb (q_id (_id d)) (post st)) eqn:Hd; cbn.
  - destruct (post st); [discriminate | discriminate].
  - destruct (post st); discriminate.
Qed.

Lemma makes_posts_insert_many d ds : makes_posts (insert_many db_post (d :: ds)).
Proof.
  cbn [insert_many insert_each].
  apply makes_posts_bind; [apply makes_posts_insert_one |].
  intros a. apply keeps_posts_bind; [apply keeps_posts_insert_each, db_post_grows |].
  intros b. apply keeps_posts_ret.
Qed.

Lemma makes_posts_seed_documents clock gen : makes_posts (seed_documents clock gen).
Proof.
  unfold seed_documents. cbv zeta. cbn [demo_posts with_ids].
  apply makes_posts_bind; [apply makes_posts_insert_many |].
  intros post_ids. apply keeps_posts_bind.
  - destruct (fst (demo_rows clock 0 post_ids _)); [apply keeps_posts_ret |].
    apply keeps_posts_bind; [apply keeps_posts_insert_many, db_vote_keeps |].
    intros; apply keeps_posts_ret.
  - intros _. destruct (snd (demo_rows clock 0 post_ids _)); [apply keeps_posts_ret |].
    apply keeps_posts_bind; [apply keeps_posts_insert_many, db_comment_keeps |].
    intros; apply keeps_posts_ret.
Qed.

(** When a post is stored, [seed_demo] does nothing; when none is, it
    runs [seed_documents]. *)
Lemma seed_demo_skips clock gen st :
  post st <> [] -> seed_demo clock gen (Some st) = (inr tt, Some st).
Proof.
  intros Hst. unfold seed_demo, bind, count_documents. cbn [docs db_post].
  rewrite filter_q_all.
  destruct (Z.ltb_spec 0 (Z.of_nat (List.length (post st)))) as [_ | Hle]; [reflexivity |].
  destruct (post st); [congruence | simpl in Hle; lia].
Qed.

Lemma seed_demo_seeds clock gen st :
  post st = [] ->
  seed_demo clock gen (Some st)
  = (fst (seed_documents clock gen st), Some (snd (seed_documents clock gen st))).
Proof.
  intros Hst. unfold seed_demo, bind, count_documents. cbn [docs db_post].
  rewrite Hst. reflexivity.
Qed.

(** After [seed_demo] has run on a database, a post is stored, whether it
    completed or not. *)
Lemma seed_demo_leaves_a_post clock gen st :
  exists st', snd (seed_demo clock gen (Some st)) = Some st' /\ post st' <> [].
Proof.
  destruct (post st) as [| p l] eqn:Hpost.
  - rewrite (seed_demo_seeds clock gen st Hpost). cbn [snd].
    eexists. split; [reflexivity | apply makes_posts_seed_documents].
  - exists st. split.
    + rewrite seed_demo_skips; [reflexivity | rewrite Hpost; discriminate].
    + rewrite Hpost. discriminate.
Qed.

(** X16. Seeding happens at most once. [seed_demo] returns without a
    change when no database is configured or when a post is stored, and
    after it has run on a database, completed or not, a post is stored: a
    second run, with whatever clock and identifiers, changes nothing. *)
Theorem seed_demo_runs_once clock gen clock' gen' db :
  seed_demo clock gen None = (inr tt, None) /\
  (forall st, post st <> [] -> seed_demo clock gen (Some st) = (inr tt, Some st)) /\
  seed_demo clock' gen' (snd (seed_demo clock gen db))
  = (inr tt, snd (seed_demo clock gen db)).
Proof.
  split; [reflexivity |]. split; [intros st; apply seed_demo_skips |].
  destruct db as [st |]; [| reflexivity].
  destruct (seed_demo_leaves_a_post clock gen st) as [st' [-> Hst']].
  apply seed_demo_skips, Hst'.
Qed.

Lemma seed_demo_runs_once_witness :
  seed_demo (fun n => Z.of_nat n) (fun _ => mkObjectId "000000000005") (Some sample_store)
  = (inr tt, Some sample_store).
Proof.
  apply (seed_demo_runs_once (fun n => Z.of_nat n) (fun _ => mkObjectId "000000000005")
           (fun n => Z.of_nat n) (fun _ => mkObjectId "000000000005") None).
  discriminate.
Defined.

(** ** Seeding the empty database *)

Lemma bind_ok {A B} (m : M A) (k : A -> M B) st a st' :
  m st = (inr a, st') -> bind m k st = k a st'.
Proof. intros H. unfold bind. rewrite H. reflexivity. Qed.

Lemma not_in_ids_fresh {S} (l : list (Doc S)) oid :
  ~ In oid (map _id l) -> existsb (q_id oid) l = false.
Proof.
  intros Hnot. destruct (existsb (q_id oid) l) eqn:Hex; [| reflexivity].
  exfalso. apply Hnot. apply existsb_exists in Hex. destruct Hex as [d [Hin Hd]].
  unfold q_id in Hd. apply oid_eqb_eq in Hd. rewrite <- Hd. apply in_map, Hin.
Qed.

(** A batch whose identifiers are distinct and not in use is stored whole,
    in order, after the documents already there. *)
Lemma insert_each_fresh {S} (c : Collection S) :
  (forall l st, docs c (set_docs c l st) = l) ->
  (forall l l' st, set_docs c l' (set_docs c l st) = set_docs c l' st) ->
  (forall st, set_docs c (docs c st) st = st) ->
  forall ds st,
    NoDup (map _id (docs c st ++ ds)) ->
    insert_each c ds st = (inr (map _id ds), set_docs c (docs c st ++ ds) st).
Proof.
  intros Hget Hset Hid. induction ds as [| d ds IH]; intros st Hnd.
  - cbn [insert_each map]. rewrite app_nil_r, Hid. reflexivity.
  - cbn [insert_each].
    assert (Hfresh : existsb (q_id (_id d)) (docs c st) = false).
    { apply not_in_ids_fresh. rewrite map_app in Hnd. cbn [map] in Hnd.
      apply NoDup_remove_2 in Hnd. intros Hin. apply Hnd.
      apply in_or_app. left. exact Hin. }
    rewrite (bind_ok _ _ st (_id d) (set_docs c (docs c st ++ [d]) st)).
    + rewrite (bind_ok _ _ _ (map _id ds)
                 (set_docs c (docs c st ++ d :: ds) st)).
      * reflexivity.
      * rewrite IH.
        -- rewrite Hget, Hset, <- app_assoc. reflexivity.
        -- rewrite Hget, <- app_assoc. exact Hnd.
    + unfold insert_one. rewrite Hfresh. reflexivity.
Qed.

Lemma map_id_with_ids {T} gen k (l : list (Pending T)) :
  map _id (with_ids gen k l) = map gen (seq k (List.length l)).
Proof.
  revert k. induction l as [| [[data created] updated] l IH]; intros k; [reflexivity |].
  cbn [with_ids map List.length seq _id]. rewrite IH. reflexivity.
Qed.

Lemma gen_distinct (gen : nat -> ObjectId) n :
  NoDup (map gen (seq 0 n)) ->
  forall i j, (i < n)%nat -> (j < n)%nat -> gen i = gen j -> i = j.
Proof.
  intros Hnd i j Hi Hj Heq.
  rewrite (NoDup_nth _ (gen 0%nat)) in Hnd.
  apply Hnd.
  - rewrite length_map, length_seq. exact Hi.
  - rewrite length_map, length_seq. exact Hj.
  - rewrite !(map_nth gen), !seq_nth by assumption. exact Heq.
Qed.

Lemma str_injective a b : str a = str b -> a = b.
Proof.
  unfold str. intros H. apply (f_equal fromhex) in H.
  rewrite !fromhex_hexlify in H. injection H as H.
  destruct a, b; simpl in *; congruence.
Qed.

Lemma NoDup_seq_part (gen : nat -> ObjectId) (a b c : nat) :
  NoDup (map gen (seq 0 (a + b + c))) -> NoDup (map gen (seq a b)).
Proof.
  intros H. rewrite <- Nat.add_assoc, seq_app, map_app in H.
  apply NoDup_app_remove_l in H. cbn [Nat.add] in H.
  rewrite seq_app, map_app in H. apply NoDup_app_remove_r in H. exact H.
Qed.

(** What [seed_demo] does on the empty database when the identifiers
    generated are distinct. *)
Lemma seed_demo_empty clock gen :
  NoDup (map gen (seq 0 18)) ->
  seed_demo clock gen (Some empty_store) = (inr tt, Some (seeded_store clock gen)).
Proof.
  intros Hnd.
  pose proof (NoDup_seq_part gen 0 4 14 Hnd) as Hposts.
  pose proof (NoDup_seq_part gen 4 10 4 Hnd) as Hvotes.
  pose proof (NoDup_seq_part gen 14 4 0 Hnd) as Hcomments.
  rewrite seed_demo_seeds by reflexivity.
  assert (Hrun : seed_documents clock gen empty_store = (inr tt, seeded_store clock gen)).
  { unfold seed_documents. cbv zeta.
    rewrite (bind_ok _ _ empty_store (map gen (seq 0 4))
               {| post := with_ids gen 0 (demo_posts clock); comment := []; vote := [] |}).
    - cbn [demo_posts List.length Nat.mul Nat.add].
      cbn [demo_rows demo_votes_for seq map fst snd List.app Nat.add Nat.mul List.length].
      rewrite (bind_ok _ _ _ tt
                 {| post := with_ids gen 0 (demo_posts clock); comment := [];
                    vote := with_ids gen 4
                              (fst (demo_rows clock 0 (map gen (seq 0 4)) 8)) |}).
      + rewrite (bind_ok _ _ _ [gen 14%nat; gen 15%nat; gen 16%nat; gen 17%nat]
                   (seeded_store clock gen)).
        * reflexivity.
        * apply (insert_each_fresh db_comment); try reflexivity.
          -- intros st. destruct st; reflexivity.
          -- exact Hcomments.
      + rewrite (bind_ok _ _ _ (map gen (seq 4 10))
                   {| post := with_ids gen 0 (demo_posts clock); comment := [];
                      vote := with_ids gen 4
                                (fst (demo_rows clock 0 (map gen (seq 0 4)) 8)) |}).
        * reflexivity.
        * apply (insert_each_fresh db_vote); try reflexivity.
          -- intros st. destruct st; reflexivity.
          -- exact Hvotes.
    - apply (insert_each_fresh db_post); try reflexivity.
      + intros st. destruct st; reflexivity.
      + exact Hposts. }
  rewrite Hrun. reflexivity.
Qed.

Lemma unique_keys_one_vote l :
  NoDup (map vote_key l) ->
  forall p c, (List.length (filter (q_vote p c) l) <= 1)%nat.
Proof.
  intros Hnd p c. induction l as [| v l IH]; simpl; [lia |].
  inversion Hnd as [| ? ? Hv Hl]; subst. specialize (IH Hl).
  destruct (q_vote p c v) eqn:Hq; [| exact IH].
  assert (Hnone : filter (q_vote p c) l = []).
  { destruct (filter (q_vote p c) l) as [| w ws] eqn:Hf; [reflexivity |].
    exfalso. apply Hv.
    assert (Hw : In w (filter (q_vote p c) l)) by (rewrite Hf; left; reflexivity).
    apply filter_In in Hw. destruct Hw as [Hin Hqw].
    apply q_vote_true in Hq, Hqw. destruct Hq as [Hp Hc], Hqw as [Hp' Hc'].
    replace (vote_key v) with (vote_key w)
      by (unfold vote_key; congruence).
    apply in_map, Hin. }
  rewrite Hnone. simpl. lia.
Qed.

Lemma seeded_post_exists clock gen k :
  (forall i, (i < 4)%nat -> String.length (binary (gen i)) = 12%nat) ->
  (k < 4)%nat ->
  post_exists (seeded_store clock gen) (str (gen k)) = true.
Proof.
  intros Hlen Hk. unfold post_exists. rewrite ObjectId_of_str_str by (apply Hlen, Hk).
  cbn [seeded_store post demo_posts with_ids existsb _id].
  destruct k as [| [| [| [| k]]]]; [| | | | lia];
    rewrite oid_eqb_refl, ?orb_true_r; reflexivity.
Qed.

(** X17. Seeding the empty database, with the identifiers the driver
    generates distinct, completes and stores the four demo posts under the
    first four identifiers, ten votes and four comments. Post number [k]
    (from 0) has [k + 1] votes and one comment kept under the text of its
    identifier. No pair [(post_id, client_id)] has two votes, identifiers
    are distinct within each collection, and, the identifiers of the posts
    having 12 bytes, every vote and every comment refers to a stored
    post. *)
Theorem seed_demo_on_empty_database clock gen :
  NoDup (map gen (seq 0 18)) ->
  (forall k, (k < 4)%nat -> String.length (binary (gen k)) = 12%nat) ->
  exists st',
    seed_demo clock gen (Some empty_store) = (inr tt, Some st') /\
    map _id (post st') = map gen (seq 0 4) /\
    List.length (vote st') = 10%nat /\
    List.length (comment st') = 4%nat /\
    (forall k, (k < 4)%nat ->
       votes_with_post_id st' (str (gen k)) = Z.of_nat (k + 1) /\
       comments_with_post_id st' (str (gen k)) = 1) /\
    votes_unique (Some st') /\ comments_refer st' /\ votes_refer st' /\ ids_unique st'.
Proof.
  intros Hnd Hlen.
  pose proof (gen_distinct gen 18 Hnd) as Hd.
  assert (Hs : forall i j, (i < 4)%nat -> (j < 4)%nat ->
                 String.eqb (str (gen i)) (str (gen j)) = (i =? j)%nat).
  { intros i j Hi Hj. destruct (Nat.eqb_spec i j) as [-> | Hij].
    - apply String.eqb_refl.
    - apply String.eqb_neq. intros Heq. apply str_injective, Hd in Heq; lia. }
  exists (seeded_store clock gen).
  split; [apply seed_demo_empty, Hnd |].
  split; [reflexivity |]. split; [reflexivity |]. split; [reflexivity |].
  split; [| split; [| split; [| split]]].
  - intros k Hk. unfold votes_with_post_id, comments_with_post_id.
    cbn [seeded_store vote comment demo_rows demo_votes_for with_ids seq map fst snd
         List.app filter body Vote.post_id Comment.post_id].
    destruct k as [| [| [| [| k]]]]; [| | | | lia];
      rewrite !Hs by lia; split; reflexivity.
  - intros p c. unfold live_votes. apply unique_keys_one_vote. clear p c.
    cbn [seeded_store vote demo_rows demo_votes_for with_ids seq map fst snd List.app
         vote_key body Vote.post_id Vote.client_id].
    unfold vote_key. cbn [body Vote.post_id Vote.client_id].
    repeat (apply NoDup_cons; [| try apply NoDup_nil]);
      cbn [In]; intros Hin;
      repeat match goal with
             | H : _ \/ _ |- _ => destruct H as [H | H]
             | H : False |- _ => destruct H
             end;
      apply pair_equal_spec in Hin; destruct Hin as [Hpost Hclient];
      first [ vm_compute in Hclient; discriminate Hclient
            | apply str_injective, Hd in Hpost; lia ].
  - intros c Hc.
    cbn [seeded_store comment demo_rows demo_votes_for with_ids seq map fst snd List.app In]
      in Hc.
    repeat match goal with
           | H : _ \/ _ |- _ => destruct H as [H | H]
           | H : False |- _ => destruct H
           end;
      subst c; cbn [body Comment.post_id]; apply seeded_post_exists; assumption || lia.
  - intros v Hv.
    cbn [seeded_store vote demo_rows demo_votes_for with_ids seq map fst snd List.app In]
      in Hv.
    repeat match goal with
           | H : _ \/ _ |- _ => destruct H as [H | H]
           | H : False |- _ => destruct H
           end;
      subst v; cbn [body Vote.post_id]; apply seeded_post_exists; assumption || lia.
  - unfold ids_unique, seeded_store. cbn [post comment vote].
    rewrite !map_id_with_ids.
    repeat split.
    + apply (NoDup_seq_part gen 0 4 14 Hnd).
    + apply (NoDup_seq_part gen 14 4 0 Hnd).
    + apply (NoDup_seq_part gen 4 10 4 Hnd).
Qed.

Lemma seed_demo_on_empty_database_witness :
  exists st',
    seed_demo sample_clock sample_gen (Some empty_store) = (inr tt, Some st') /\
    map _id (post st') = map sample_gen (seq 0 4) /\
    List.length (vote st') = 10%nat /\
    List.length (comment st') = 4%nat /\
    (forall k, (k < 4)%nat ->
       votes_with_post_id st' (str (sample_gen k)) = Z.of_nat (k + 1) /\
       comments_with_post_id st' (str (sample_gen k)) = 1) /\
    votes_unique (Some st') /\ comments_refer st' /\ votes_refer st' /\ ids_unique st'.
Proof.
  apply (seed_demo_on_empty_database sample_clock sample_gen).
  - vm_compute. repeat (apply NoDup_cons; [| try apply NoDup_nil]);
      cbn [In]; intros Hin;
      repeat match goal with
             | H : _ \/ _ |- _ => destruct H as [H | H]
             | H : False |- _ => destruct H
             end;
      discriminate Hin.
  - intros k Hk. destruct k as [| [| [| [| k]]]]; [| | | | lia]; reflexivity.
Defined.

(* ================================================================== *)
(** * Identifiers shown and identifiers accepted *)
(* ================================================================== *)

Lemma full_listing_item_source st timeframe sort_by now i :
  In i (full_listing st timeframe sort_by now) ->
  exists p, In p (post st) /\ in_window timeframe now p = true /\ item_doc i = to_str_id p.
Proof.
  intros Hi.
  assert (Hdoc : In (item_doc i) (map item_doc (full_listing st timeframe sort_by now)))
    by (apply in_map, Hi).
  eapply Permutation_in in Hdoc; [| apply Permutation_sym, full_listing_perm].
  apply in_map_iff in Hdoc. destruct Hdoc as [p [Hp Hin]].
  apply filter_In in Hin. destruct Hin as [Hin Hwin].
  exists p. auto.
Qed.

(** X18. Every identifier the listing shows is accepted back: when the
    stored posts have 12-byte identifiers, the [id] of each item returned
    for a page within the declared bounds whose [(page-1)*page_size] is at
    most [2^63 - 1] resolves to an existing post, so a comment on it or a
    vote for it is not answered with 404. *)
Theorem listed_ids_resolve st page page_size timeframe sort_by now :
  post_ids_well_formed st ->
  1 <= page -> 1 <= page_size <= 50 -> (page - 1) * page_size <= int64_max ->
  exists r,
    list_posts page page_size timeframe sort_by now (Some st) = (inr r, Some st) /\
    forall i, In i (items r) ->
      post_exists st (id (item_doc i)) = true /\
      (forall content author now' oid,
         fst (add_comment (CommentCreate.mk (id (item_doc i)) content author) now' oid
                          (Some st))
         <> inl (HTTPException 404 "Post not found")) /\
      (forall cid now' oid,
         fst (toggle_vote (VoteToggle.mk (id (item_doc i)) cid) now' oid (Some st))
         <> inl (HTTPException 404 "Post not found")).
Proof.
  intros Hwf Hpage [Hsize Hmax] Hskip. eexists.
  split; [apply list_posts_eval; auto using fits_int64_small with zarith |].
  cbn [items]. intros i Hi. apply slice_incl in Hi.
  destruct (full_listing_item_source _ _ _ _ _ Hi) as [p [Hin [_ Hdoc]]].
  assert (Hex : post_exists st (id (item_doc i)) = true).
  { rewrite Hdoc. cbn [to_str_id id]. apply stored_post_exists; [exact Hin | apply Hwf, Hin]. }
  split; [exact Hex |]. split.
  - intros content author now' oid.
    rewrite (add_comment_found st _ now' oid) by exact Hex.
    destruct (existsb (q_id oid) (comment st)); discriminate.
  - intros cid now' oid.
    destruct (List.find (q_vote (id (item_doc i)) cid) (vote st)) as [e |] eqn:Hfind.
    + rewrite (toggle_vote_delete st _ cid now' oid e Hex Hfind). discriminate.
    + destruct (existsb (q_id oid) (vote st)) eqn:Hfresh.
      * rewrite (toggle_vote_duplicate st _ cid now' oid Hex Hfind Hfresh). discriminate.
      * rewrite (toggle_vote_insert st _ cid now' oid Hex Hfind Hfresh). discriminate.
Qed.

Lemma listed_ids_resolve_witness :
  exists r,
    list_posts 1 2 all votes 5000 (Some three_posts) = (inr r, Some three_posts) /\
    forall i, In i (items r) ->
      post_exists three_posts (id (item_doc i)) = true /\
      (forall content author now' oid,
         fst (add_comment (CommentCreate.mk (id (item_doc i)) content author) now' oid
                          (Some three_posts))
         <> inl (HTTPException 404 "Post not found")) /\
      (forall cid now' oid,
         fst (toggle_vote (VoteToggle.mk (id (item_doc i)) cid) now' oid (Some three_posts))
         <> inl (HTTPException 404 "Post not found")).
Proof.
  apply (listed_ids_resolve three_posts 1 2 all votes 5000).
  - intros p Hp. simpl in Hp. destruct Hp as [<- | [<- | [<- | []]]]; reflexivity.
  - lia.
  - lia.
  - vm_compute. discriminate.
Defined.

Lemma NoDup_firstn {A} n (l : list A) : NoDup l -> NoDup (firstn n l).
Proof.
  revert l. induction n as [| n IH]; intros l Hl; [constructor |].
  destruct l as [| x l]; [constructor |].
  inversion Hl as [| ? ? Hx Hl']; subst. cbn [firstn].
  constructor; [| apply IH, Hl'].
  intros Hin. apply Hx. eapply firstn_incl, Hin.
Qed.

Lemma NoDup_filter_ids {S} (f : Query S) l :
  NoDup (map _id l) -> NoDup (map _id (filter f l)).
Proof.
  induction l as [| d l IH]; simpl; intros Hnd; [constructor |].
  inversion Hnd as [| ? ? Hd Hl]; subst.
  destruct (f d); [| apply IH, Hl].
  cbn [map]. constructor; [| apply IH, Hl].
  intros Hin. apply Hd. apply in_map_iff in Hin. destruct Hin as [x [Hx Hin]].
  apply filter_In in Hin. apply in_map_iff. exists x. tauto.
Qed.

Lemma NoDup_map_injective {A B} (f : A -> B) l :
  (forall a b, f a = f b -> a = b) -> NoDup l -> NoDup (map f l).
Proof.
  intros Hinj. induction 1 as [| x l Hx Hl IH]; simpl; constructor; [| exact IH].
  intros Hin. apply in_map_iff in Hin. destruct Hin as [y [Hy Hin]].
  apply Hinj in Hy. subst y. exact (Hx Hin).
Qed.

Lemma full_listing_ids_distinct st timeframe sort_by now :
  NoDup (map _id (post st)) ->
  NoDup (map item_id (full_listing st timeframe sort_by now)).
Proof.
  intros Hnd.
  assert (Hperm : Permutation
            (map (fun p => str (_id p)) (filter (in_window timeframe now) (post st)))
            (map item_id (full_listing st timeframe sort_by now))).
  { pose proof (full_listing_perm st timeframe sort_by now) as H.
    apply (Permutation_map id) in H. rewrite !map_map in H. exact H. }
  eapply Permutation_NoDup; [exact Hperm |].
  rewrite <- (map_map _id str).
  apply NoDup_map_injective; [intros a b; apply str_injective |].
  apply NoDup_filter_ids, Hnd.
Qed.

(** X19. Walking the pages shows no post twice: when the stored posts have
    distinct identifiers, and no two of them share their [created_at] (so
    that the order of the listing is the same on every call), the items of
    the pages 1, ..., n taken together carry pairwise distinct
    identifiers. *)
Theorem pages_show_each_post_once st page_size timeframe sort_by now n :
  NoDup (map _id (post st)) ->
  NoDup (map created_at (post st)) ->
  1 <= page_size ->
  NoDup (map item_id
           (List.concat (map (page_items st page_size timeframe sort_by now) (pages n)))).
Proof.
  intros Hnd _ Hsize.
  destruct (pages_concat_prefix st page_size timeframe sort_by now n Hsize) as [m ->].
  rewrite <- firstn_map.
  apply NoDup_firstn, full_listing_ids_distinct, Hnd.
Qed.

Lemma pages_show_each_post_once_witness :
  NoDup (map item_id
           (List.concat (map (page_items sample_store 1 all latest 5000) (pages 3)))).
Proof.
  apply (pages_show_each_post_once sample_store 1 all latest 5000 3).
  - simpl. repeat constructor. simpl. tauto.
  - simpl. repeat constructor. simpl. tauto.
  - lia.
Defined.

(* ================================================================== *)
(** * Which collection a route writes *)
(* ================================================================== *)

(** X20. Each route writes to its own collection only: post creation
    leaves the comments and the votes as they were, comment creation the
    posts and the votes, a vote toggle the posts and the comments, and the
    GET routes the whole store, whatever the request holds and whatever the
    answer is. *)
Theorem routes_write_their_own_collection r now oid st :
  exists st',
    snd (app r now oid (Some st)) = Some st' /\
    match r with
    | POST_posts _ => comment st' = comment st /\ vote st' = vote st
    | POST_comments _ => post st' = post st /\ vote st' = vote st
    | POST_vote_toggle _ => post st' = post st /\ comment st' = comment st
    | GET_root | GET_posts _ | GET_comments _ => st' = st
    end.
Proof.
  destruct r as [| q | body | body | body | pid]; cbn [app].
  - exists st. split; reflexivity.
  - exists st. split; [| reflexivity].
    destruct (validate_list_query q) as [errors | [[[pg ps] tf] sb]]; [reflexivity |].
    rewrite respond_snd. apply list_posts_reads.
  - destruct (validate_PostCreate body) as [errors | payload].
    + exists st. repeat split.
    + rewrite respond_snd, create_post_eval.
      destruct (existsb (q_id oid) (post st)); eexists; repeat split.
  - destruct (validate_CommentCreate body) as [errors | payload].
    + exists st. repeat split.
    + rewrite respond_snd.
      destruct (post_exists st (CommentCreate.post_id payload)) eqn:Hpost.
      * rewrite (add_comment_found st payload now oid Hpost).
        destruct (existsb (q_id oid) (comment st)); eexists; repeat split.
      * destruct payload as [p content author]. cbn [CommentCreate.post_id] in Hpost.
        rewrite (add_comment_not_found st p content author now oid Hpost).
        exists st. repeat split.
  - destruct (validate_VoteToggle body) as [errors | [p cid]].
    + exists st. repeat split.
    + rewrite respond_snd.
      destruct (post_exists st p) eqn:Hpost.
      * destruct (List.find (q_vote p cid) (vote st)) as [e |] eqn:Hfind.
        -- rewrite (toggle_vote_delete st p cid now oid e Hpost Hfind).
           eexists. repeat split.
        -- destruct (existsb (q_id oid) (vote st)) eqn:Hfresh.
           ++ rewrite (toggle_vote_duplicate st p cid now oid Hpost Hfind Hfresh).
              exists st. repeat split.
           ++ rewrite (toggle_vote_insert st p cid now oid Hpost Hfind Hfresh).
              eexists. repeat split.
      * rewrite (toggle_vote_not_found st p cid now oid Hpost).
        exists st. repeat split.
  - exists st. split; reflexivity.
Qed.

(* ================================================================== *)
(** * Further properties of the toggle and of the bodies *)
(* ================================================================== *)

Lemma remove_first_fresh {S} (q : Query S) l oid :
  existsb (q_id oid) l = false -> existsb (q_id oid) (remove_first q l) = false.
Proof.
  intros Hfresh. apply not_in_ids_fresh. intros Hin.
  apply (fresh_id_not_in l oid Hfresh).
  apply in_map_iff in Hin. destruct Hin as [d [Hd Hin]].
  apply in_map_iff. exists d. split; [exact Hd | eapply remove_first_In, Hin].
Qed.

Lemma remove_first_id_gone {S} (l : list (Doc S)) (e : Doc S) :
  NoDup (map _id l) -> ~ In (_id e) (map _id (remove_first (q_id (_id e)) l)).
Proof.
  induction l as [| d l IH]; simpl; intros Hnd; [tauto |].
  inversion Hnd as [| ? ? Hd Hl]; subst.
  unfold q_id at 1. destruct (oid_eqb (_id d) (_id e)) eqn:Hid.
  - apply oid_eqb_eq in Hid. rewrite <- Hid. exact Hd.
  - cbn [map In]. intros [Heq | Hin].
    + rewrite Heq, oid_eqb_refl in Hid. discriminate.
    + exact (IH Hl Hin).
Qed.

(** X21. Off, then on, is not the identity on the store. When the pair has
    exactly one live vote [e], two toggles in sequence report "unvoted" and
    then "voted" and leave the pair with one live vote again, but it is a
    new record: it carries the newly generated identifier and the time of
    the second call, and no stored vote has the identifier of [e] any
    more. *)
Theorem toggle_vote_off_then_on st pid cid now1 oid1 now2 oid2 e :
  post_exists st pid = true ->
  NoDup (map _id (vote st)) ->
  List.find (q_vote pid cid) (vote st) = Some e ->
  live_votes st pid cid = 1%nat ->
  existsb (q_id oid2) (vote st) = false ->
  exists st1 st2,
    toggle_vote (VoteToggle.mk pid cid) now1 oid1 (Some st)
    = (inr (mkVoteResponse "unvoted" None), Some st1) /\
    live_votes st1 pid cid = 0%nat /\
    toggle_vote (VoteToggle.mk pid cid) now2 oid2 (Some st1)
    = (inr (mkVoteResponse "voted" (Some (str oid2))), Some st2) /\
    live_votes st2 pid cid = 1%nat /\
    In (mkDoc oid2 (Vote.mk pid cid) now2 now2) (vote st2) /\
    ~ In (_id e) (map _id (vote st2)).
Proof.
  intros Hpost Hnd Hfind Hlive Hfresh.
  destruct (find_some _ _ Hfind) as [Hin He].
  set (l1 := remove_first (q_id (_id e)) (vote st)).
  assert (Hlive1 : List.length (filter (q_vote pid cid) l1) = 0%nat).
  { unfold l1. rewrite (remove_first_by_id _ _ e Hnd Hin), He.
    unfold live_votes in Hlive. lia. }
  assert (Hfind1 : List.find (q_vote pid cid) l1 = None).
  { apply find_filter_nil, length_zero_iff_nil, Hlive1. }
  assert (Hfresh1 : existsb (q_id oid2) l1 = false)
    by (apply remove_first_fresh, Hfresh).
  set (v := mkDoc oid2 (Vote.mk pid cid) now2 now2).
  exists {| post := post st; comment := comment st; vote := l1 |}.
  exists {| post := post st; comment := comment st; vote := l1 ++ [v] |}.
  split; [apply (toggle_vote_delete st pid cid now1 oid1 e Hpost Hfind) |].
  split; [exact Hlive1 |].
  split.
  { apply (toggle_vote_insert {| post := post st; comment := comment st; vote := l1 |}
             pid cid now2 oid2); assumption. }
  split.
  { assert (Hv : q_vote pid cid v = true) by apply (q_vote_refl v).
    unfold live_votes. cbn [vote]. rewrite filter_app, length_app, Hlive1.
    cbn [filter]. rewrite Hv. reflexivity. }
  split.
  { cbn [vote]. apply in_or_app. right. left. reflexivity. }
  cbn [vote]. rewrite map_app. cbn [map _id v]. intros Hgone.
  apply in_app_or in Hgone. destruct Hgone as [Hgone | [Heq | []]].
  - exact (remove_first_id_gone (vote st) e Hnd Hgone).
  - apply (fresh_id_not_in (vote st) oid2 Hfresh). rewrite Heq. apply in_map, Hin.
Qed.

Lemma toggle_vote_off_then_on_witness :
  exists st1 st2,
    toggle_vote (VoteToggle.mk (str (_id sample_post)) "c1") 3000
                (mkObjectId "000000000003") (Some sample_store)
    = (inr (mkVoteResponse "unvoted" None), Some st1) /\
    live_votes st1 (str (_id sample_post)) "c1" = 0%nat /\
    toggle_vote (VoteToggle.mk (str (_id sample_post)) "c1") 4000
                (mkObjectId "000000000004") (Some st1)
    = (inr (mkVoteResponse "voted" (Some (str (mkObjectId "000000000004")))), Some st2) /\
    live_votes st2 (str (_id sample_post)) "c1" = 1%nat /\
    In (mkDoc (mkObjectId "000000000004") (Vote.mk (str (_id sample_post)) "c1") 4000 4000)
       (vote st2) /\
    ~ In (_id sample_vote) (map _id (vote st2)).
Proof.
  apply (toggle_vote_off_then_on sample_store (str (_id sample_post)) "c1" 3000
           (mkObjectId "000000000003") 4000 (mkObjectId "000000000004") sample_vote).
  - reflexivity.
  - simpl. repeat constructor. simpl. tauto.
  - reflexivity.
  - reflexivity.
  - reflexivity.
Defined.

Lemma fromhex_bad_char_bounded n s :
  (String.length s <= n)%nat -> has_bad_char s = true -> fromhex s = None.
Proof.
  revert s. induction n as [| n IH]; intros s Hn Hbad.
  - destruct s; [discriminate Hbad | simpl in Hn; lia].
  - destruct s as [| c s]; [discriminate Hbad |].
    cbn [has_bad_char fromhex] in *.
    destruct (isspace c) eqn:Hsp.
    + cbn [negb andb orb] in Hbad. apply IH; [simpl in Hn; lia | exact Hbad].
    + destruct (hex_value c) as [top |]; [| reflexivity].
      cbn [negb andb orb] in Hbad.
      destruct s as [| d s]; [reflexivity |].
      cbn [has_bad_char] in Hbad.
      destruct (hex_value d) as [bot |]; [| reflexivity].
      rewrite andb_false_r in Hbad. cbn [orb] in Hbad.
      rewrite IH; [reflexivity | simpl in Hn; lia | exact Hbad].
Qed.

(** X22. A [post_id] that cannot be an identifier is a 404, never a
    validation error and never a server error: for a text whose length is
    not 24 (the empty text included) or that holds a character that is
    neither a hexadecimal digit nor white space, comment creation and vote
    toggle answer "Post not found" on every store and leave it as it
    was. *)
Theorem malformed_post_id_is_not_found st pid :
  String.length pid <> 24%nat \/ has_bad_char pid = true ->
  (forall content author now oid,
     add_comment (CommentCreate.mk pid content author) now oid (Some st)
     = (inl (HTTPException 404 "Post not found"), Some st)) /\
  (forall cid now oid,
     toggle_vote (VoteToggle.mk pid cid) now oid (Some st)
     = (inl (HTTPException 404 "Post not found"), Some st)).
Proof.
  intros Hbad.
  assert (Hnone : ObjectId_of_str pid = None).
  { unfold ObjectId_of_str. destruct Hbad as [Hlen | Hchar].
    - destruct (Nat.eqb_spec (String.length pid) 24); [contradiction | reflexivity].
    - rewrite (fromhex_bad_char_bounded (String.length pid) pid) by auto.
      destruct (String.length pid =? 24)%nat; reflexivity. }
  assert (Hmissing : post_exists st pid = false)
    by (unfold post_exists; rewrite Hnone; reflexivity).
  split; intros.
  - apply add_comment_not_found, Hmissing.
  - apply toggle_vote_not_found, Hmissing.
Qed.

Lemma malformed_post_id_is_not_found_witness :
  (forall content author now oid,
     add_comment (CommentCreate.mk "" content author) now oid (Some sample_store)
     = (inl (HTTPException 404 "Post not found"), Some sample_store)) /\
  (forall cid now oid,
     toggle_vote (VoteToggle.mk "" cid) now oid (Some sample_store)
     = (inl (HTTPException 404 "Post not found"), Some sample_store)).
Proof.
  apply (malformed_post_id_is_not_found sample_store "").
  left. simpl. lia.
Defined.

(** X23. [POST /api/posts] reads only the declared fields of the body. It
    runs [create_post] on the texts under [title] and [description], the
    text under [link] and under [author_name] if there is one, and the list
    of texts under [tags], empty when [tags] is absent, provided [link] and
    [author_name] are absent, null or texts and [tags] is absent or an array
    of texts. In every other case the request is answered with a validation
    error and nothing is stored. *)
Theorem post_bodies body now oid db :
  match field_text "title" body, field_text "description" body,
        field_is_optional_text "link" body, field_texts "tags" body,
        field_is_optional_text "author_name" body with
  | Some t, Some d, true, Some g, true =>
      app (POST_posts body) now oid db
      = respond Created
          (create_post
             (PostCreate.mk t d (field_text "link" body) g (field_text "author_name" body))
             now oid) db
  | _, _, _, _, _ =>
      exists errors,
        app (POST_posts body) now oid db = (inl (RequestValidationError errors), db)
  end.
Proof.
  destruct body as [| b | z | s | l | o]; try (cbn; eexists; reflexivity).
  cbn [app field_text field_is_optional_text field_texts].
  unfold validate_PostCreate, required_str, optional_str, str_list.
  destruct (assoc "title" o) as [[| ? | ? | t | ? | ?] |];
    destruct (assoc "description" o) as [[| ? | ? | d | ? | ?] |];
    destruct (assoc "link" o) as [[| ? | ? | k | ? | ?] |];
    destruct (assoc "tags" o) as [[| ? | ? | ? | g | ?] |];
    try destruct (all_strings g);
    destruct (assoc "author_name" o) as [[| ? | ? | a | ? | ?] |];
    cbn; try reflexivity; eexists; reflexivity.
Qed.

(* ================================================================== *)
(** * The order of the listing when no two posts share a timestamp *)
(* ================================================================== *)

Lemma sorted_perm_unique {A} (R : A -> A -> Prop) (l l' : list A) :
  (forall a b, In a l -> In b l -> R a b -> R b a -> a = b) ->
  StronglySorted R l -> StronglySorted R l' -> Permutation l l' -> l = l'.
Proof.
  revert l'. induction l as [| x t IH]; intros l' Hanti Hl Hl' Hperm.
  - apply Permutation_nil in Hperm. congruence.
  - destruct l' as [| y t'].
    + apply Permutation_sym, Permutation_nil in Hperm. discriminate.
    + inversion Hl as [| ? ? Ht Hx]; subst.
      inversion Hl' as [| ? ? Ht' Hy]; subst.
      rewrite Forall_forall in Hx, Hy.
      assert (Hxy : x = y).
      { assert (Hxin : In x (y :: t'))
          by (eapply Permutation_in; [exact Hperm | left; reflexivity]).
        assert (Hyin : In y (x :: t))
          by (eapply Permutation_in; [apply Permutation_sym, Hperm | left; reflexivity]).
        destruct Hxin as [Heq | Hxin]; [congruence |].
        destruct Hyin as [Heq | Hyin]; [congruence |].
        apply Hanti; [left; reflexivity | right; exact Hyin | apply Hx, Hyin
                     | apply Hy, Hxin]. }
      subst y. f_equal.
      apply IH; [| exact Ht | exact Ht' | eapply Permutation_cons_inv, Hperm].
      intros a b Ha Hb. apply Hanti; right; assumption.
Qed.

Lemma compare_keys_eq_created sort_by x y :
  has_counts x -> has_counts y ->
  compare_keys (sort_keys sort_by) x y = Eq ->
  created_at (source x) = created_at (source y).
Proof.
  intros [n [m Hx]] [n' [m' Hy]].
  destruct sort_by; cbn [sort_keys compare_keys]; unfold sort_value;
    rewrite Hx, Hy; cbn.
  - destruct (Z.compare_spec n n'); cbn; try discriminate.
    destruct (Z.compare_spec (created_at (source x)) (created_at (source y)));
      cbn; congruence.
  - destruct (Z.compare_spec m m'); cbn; try discriminate.
    destruct (Z.compare_spec (created_at (source x)) (created_at (source y)));
      cbn; congruence.
  - destruct (Z.compare_spec (created_at (source x)) (created_at (source y)));
      cbn; congruence.
Qed.

Lemma NoDup_map_eq {A B} (f : A -> B) l a b :
  NoDup (map f l) -> In a l -> In b l -> f a = f b -> a = b.
Proof.
  induction l as [| x l IH]; simpl; intros Hnd Ha Hb Hf; [tauto |].
  inversion Hnd as [| ? ? Hx Hl]; subst.
  destruct Ha as [-> | Ha], Hb as [-> | Hb]; auto.
  - exfalso. apply Hx. rewrite Hf. apply in_map, Hb.
  - exfalso. apply Hx. rewrite <- Hf. apply in_map, Ha.
Qed.

(** X24. The order of the listing is forced when no two posts share their
    [created_at]: every sort ends on that key, so any arrangement of the
    documents of the window that is sorted by the selected keys is the one
    the listing returns. The documents that compare equal are the only
    freedom a [$sort] has, and then there are none. *)
Theorem listing_order_is_forced st timeframe sort_by now arranged :
  NoDup (map created_at (post st)) ->
  Permutation (map (enriched st) (filter (filter_q timeframe now) (post st))) arranged ->
  StronglySorted (sorts_before (sort_keys sort_by)) arranged ->
  map to_str_id_item arranged = full_listing st timeframe sort_by now.
Proof.
  intros Hnd Hperm Hsorted. rewrite full_listing_eq. f_equal.
  set (l := map (enriched st) (filter (filter_q timeframe now) (post st))) in *.
  symmetry. apply (sorted_perm_unique (sorts_before (sort_keys sort_by))).
  - intros a b Ha Hb Hab Hba.
    apply sort_docs_In in Ha, Hb. unfold l in Ha, Hb.
    apply in_map_iff in Ha, Hb.
    destruct Ha as [d [<- Hd]], Hb as [d' [<- Hd']].
    apply filter_In in Hd, Hd'. destruct Hd as [Hd _], Hd' as [Hd' _].
    assert (Heq : compare_keys (sort_keys sort_by) (enriched st d) (enriched st d') = Eq).
    { unfold sorts_before in Hab, Hba. rewrite compare_keys_antisym in Hba.
      destruct (compare_keys (sort_keys sort_by) (enriched st d) (enriched st d'));
        simpl in *; congruence. }
    apply compare_keys_eq_created in Heq; try apply enriched_has_counts.
    cbn [enriched source] in Heq.
    rewrite (NoDup_map_eq created_at (post st) d d' Hnd Hd Hd' Heq). reflexivity.
  - apply sort_docs_sorted.
  - exact Hsorted.
  - eapply perm_trans; [apply Permutation_sym, sort_docs_perm | exact Hperm].
Qed.

(** The three posts, stored oldest, newest, middle: the arrangement
    newest, middle, oldest is sorted, so it is the listing, and it is not
    the order of the store. *)
Lemma listing_order_is_forced_witness :
  map to_str_id_item
      [enriched three_posts second_post; enriched three_posts third_post;
       enriched three_posts first_post]
  = full_listing three_posts all votes 5000 /\
  post three_posts = [first_post; second_post; third_post].
Proof.
  split; [| reflexivity].
  apply (listing_order_is_forced three_posts all votes 5000).
  - simpl. repeat constructor; simpl; intuition discriminate.
  - apply (Permutation_cons_append
             [enriched three_posts second_post; enriched three_posts third_post]
             (enriched three_posts first_post)).
  - repeat constructor; vm_compute; discriminate.
Defined.
